(** * Phaser v3 StateManager (src/v3/src/state/StateManager.js)

    A shallow embedding of the state manager: the registry ([keys],
    [states]), the boot deferral queue ([_pending]), the active list
    ([active]) and the operations [boot], [getKey], [add], the three
    createStateFrom* adapters, [start], [loadComplete], [startCreate],
    [pause], [sortStates] and [step].

    JavaScript objects are shared and mutated in place, so the model keeps
    two stores: [objs], the State objects, and [cfgs], the plain
    configuration records handed in by the caller.  A reference is an index
    into its store.  Calls into collaborators whose code is not part of the
    manager (hooks, loader, main loop, renderer) are recorded, in order, in
    [log].

    Conventions.
    - [this.keys] is a plain JavaScript object used as a map from key to
      State.  [keys] holds its own properties and [keys_proto] its
      prototype: Object.prototype, or a State once one was assigned to
      [this.keys['__proto__']].  A read [this.keys[key]] that finds no own
      property goes on along the prototype chain ([getState]).
    - A reference that was never allocated reads as [blank_State] /
      [blank_Config]; JavaScript has no such references.
    - Hooks are opaque caller code.  A hook is modelled by the number of
      loadables it pushes onto the loader of its state; it returns normally
      and does not call back into the manager. *)

From stdpp Require Import gmap strings list.
From Stdlib Require Import ZArith Sorted.

Local Open Scope Z_scope.

(** ** Values and objects *)

Definition ref := nat.

(** The JavaScript values the manager compares with [===]: strings, State
    objects (by address) and the [{index, state}] literals built by
    [startCreate] (by the order of their creation). *)
Inductive Value :=
| VString (s : string)
| VState (r : ref)
| VLiteral (n : nat).

Definition strict_eq (a b : Value) : bool :=
  match a, b with
  | VString s, VString t => String.eqb s t
  | VState r, VState q => Nat.eqb r q
  | VLiteral n, VLiteral m => Nat.eqb n m
  | _, _ => false
  end.

(** Property-key conversion of [this.keys[v]]: a string is its own key, an
    object without a toString of its own converts to "[object Object]". *)
Definition ToString (v : Value) : string :=
  match v with
  | VString s => s
  | VState _ | VLiteral _ => "[object Object]"
  end.

(** What a read of [this.keys[key]] can yield besides a State: values found
    on the prototype chain.  All of them are truthy and none has a
    [settings] property. *)
Inductive Inherited :=
| ObjectPrototype                         (* Object.prototype itself *)
| ObjectMethod (name : string)            (* a method of Object.prototype *)
| StateMember (state : ref) (name : string).
                       (* the game, settings, sys or a hook of a State *)

Inductive Lookup :=
| Undefined
| StateObject (state : ref)
| Other (v : Inherited).

(** A callback: [NOOP] (utils/NOOP) or a caller function, which pushes
    [loads] entries onto the loader of the state it is called on. *)
Inductive Callback :=
| NOOP
| Fn (loads : nat).

Definition loads_of (f : Callback) : nat :=
  match f with NOOP => 0%nat | Fn n => n end.

Record Loader := { list_size : nat }.

(** A State object: [settings], the hooks, and [sys]. *)
Record State := {
  game_set : bool;
  settings_key : string;
  settings_active : bool;
  settings_x : Z;
  settings_y : Z;
  settings_width : Z;
  settings_height : Z;
  init : option Callback;
  preload : option Callback;
  create : option Callback;
  shutdown : option Callback;
  preUpdate : option Callback;
  update : option Callback;
  postUpdate : option Callback;
  render : option Callback;
  loadUpdate : option Callback;          (* own property, see loadComplete *)
  sys_load : option Loader;
  sys_updates_running : bool;
  sys_mainloop_running : bool;
  sys_fbo : option (Z * Z * Z * Z)
}.

(** A plain configuration record; [None] is an absent property. *)
Record Config := {
  cfg_key : option string;
  cfg_active : option bool;
  cfg_x : option Z;
  cfg_y : option Z;
  cfg_width : option Z;
  cfg_height : option Z;
  cfg_init : option Callback;
  cfg_preload : option Callback;
  cfg_create : option Callback;
  cfg_shutdown : option Callback;
  cfg_preUpdate : option Callback;
  cfg_update : option Callback;
  cfg_postUpdate : option Callback;
  cfg_render : option Callback
}.

(** What [new state()] yields for a function source: the object and whether
    it is [instanceof State]. *)
Record Factory := {
  instance_of_State : bool;
  product : State
}.

(** The three shapes [add] accepts as [stateConfig]. *)
Inductive Source :=
| SrcInstance (r : ref)
| SrcObject (c : ref)
| SrcFunction (f : Factory).

Record Pending := {
  p_index : nat;
  p_key : option string;
  p_state : Source;
  p_autoStart : bool
}.

Record ActiveRecord := {
  ar_id : nat;          (* identity of the literal *)
  ar_index : Z;
  ar_state : ref
}.

Inductive RenderType := CANVAS | WEBGL.

Record Game := {
  isBooted : bool;
  renderType : RenderType;
  config_width : Z;
  config_height : Z
}.

Inductive HookName := Init | Preload | Create | LoadUpdate.

Inductive Event :=
| Call (st : ref) (h : HookName) (f : Callback)
| SysInit (st : ref)
| CreateFBO (st : ref) (x y width height : Z)
| LoaderReset (st : ref)
| LoaderOnce (st : ref)
| LoaderStart (st : ref)
| MainLoopStart (st : ref)
| MainLoopStep (st : ref) (timestamp : Z).

Inductive Error :=
| DuplicateKey (k : string)
| TypeError.

Inductive Outcome (A : Type) :=
| Return (a : A)
| Throw (e : Error).
Arguments Return {A} a.
Arguments Throw {A} e.

(** ** The manager and its surroundings *)

Record World := {
  game : Game;
  keys : gmap string ref;         (* own properties of this.keys *)
  keys_proto : option ref;        (* its prototype: None is Object.prototype *)
  states : list ref;
  active : list ActiveRecord;
  _pending : list Pending;
  literals : nat;                 (* object literals built so far *)
  objs : list State;
  cfgs : list Config;
  log : list Event
}.

Definition blank_State : State :=
  {| game_set := false; settings_key := ""; settings_active := false;
     settings_x := 0; settings_y := 0;
     settings_width := -1; settings_height := -1;
     init := None; preload := None; create := None; shutdown := None;
     preUpdate := None; update := None; postUpdate := None; render := None;
     loadUpdate := None; sys_load := None; sys_updates_running := false;
     sys_mainloop_running := false; sys_fbo := None |}.

Definition blank_Config : Config :=
  {| cfg_key := None; cfg_active := None; cfg_x := None; cfg_y := None;
     cfg_width := None; cfg_height := None; cfg_init := None;
     cfg_preload := None; cfg_create := None; cfg_shutdown := None;
     cfg_preUpdate := None; cfg_update := None; cfg_postUpdate := None;
     cfg_render := None |}.

#[global] Instance State_inhabited : Inhabited State := populate blank_State.
#[global] Instance Config_inhabited : Inhabited Config := populate blank_Config.

#[global] Instance Value_eq_dec : EqDecision Value.
Proof. solve_decision. Defined.
#[global] Instance Inherited_eq_dec : EqDecision Inherited.
Proof. solve_decision. Defined.
#[global] Instance Lookup_eq_dec : EqDecision Lookup.
Proof. solve_decision. Defined.
#[global] Instance Callback_eq_dec : EqDecision Callback.
Proof. solve_decision. Defined.
#[global] Instance HookName_eq_dec : EqDecision HookName.
Proof. solve_decision. Defined.
#[global] Instance Event_eq_dec : EqDecision Event.
Proof. solve_decision. Defined.

(** *** Field updates *)

Definition set_keys (k : gmap string ref) (w : World) : World :=
  {| game := game w; keys := k; keys_proto := keys_proto w;
     states := states w; active := active w; _pending := _pending w;
     literals := literals w; objs := objs w; cfgs := cfgs w; log := log w |}.

Definition set_keys_proto (p : option ref) (w : World) : World :=
  {| game := game w; keys := keys w; keys_proto := p; states := states w;
     active := active w; _pending := _pending w; literals := literals w;
     objs := objs w; cfgs := cfgs w; log := log w |}.

Definition set_states (l : list ref) (w : World) : World :=
  {| game := game w; keys := keys w; keys_proto := keys_proto w; states := l;
     active := active w; _pending := _pending w; literals := literals w;
     objs := objs w; cfgs := cfgs w; log := log w |}.

Definition set_active (l : list ActiveRecord) (w : World) : World :=
  {| game := game w; keys := keys w; keys_proto := keys_proto w;
     states := states w; active := l; _pending := _pending w;
     literals := literals w; objs := objs w; cfgs := cfgs w; log := log w |}.

Definition set_pending (l : list Pending) (w : World) : World :=
  {| game := game w; keys := keys w; keys_proto := keys_proto w;
     states := states w; active := active w; _pending := l;
     literals := literals w; objs := objs w; cfgs := cfgs w; log := log w |}.

Definition set_literals (n : nat) (w : World) : World :=
  {| game := game w; keys := keys w; keys_proto := keys_proto w;
     states := states w; active := active w; _pending := _pending w;
     literals := n; objs := objs w; cfgs := cfgs w; log := log w |}.

Definition set_objs (l : list State) (w : World) : World :=
  {| game := game w; keys := keys w; keys_proto := keys_proto w;
     states := states w; active := active w; _pending := _pending w;
     literals := literals w; objs := l; cfgs := cfgs w; log := log w |}.

Definition set_cfgs (l : list Config) (w : World) : World :=
  {| game := game w; keys := keys w; keys_proto := keys_proto w;
     states := states w; active := active w; _pending := _pending w;
     literals := literals w; objs := objs w; cfgs := l; log := log w |}.

Definition emit (e : Event) (w : World) : World :=
  {| game := game w; keys := keys w; keys_proto := keys_proto w;
     states := states w; active := active w; _pending := _pending w;
     literals := literals w; objs := objs w; cfgs := cfgs w;
     log := log w ++ [e] |}.

(** The State object at address [r], and its update in place. *)
Definition obj (r : ref) (w : World) : State := objs w !!! r.

Definition modify (r : ref) (f : State -> State) (w : World) : World :=
  set_objs (<[r := f (obj r w)]> (objs w)) w.

Definition with_game_set (s : State) : State :=
  {| game_set := true; settings_key := settings_key s;
     settings_active := settings_active s; settings_x := settings_x s;
     settings_y := settings_y s; settings_width := settings_width s;
     settings_height := settings_height s; init := init s;
     preload := preload s; create := create s; shutdown := shutdown s;
     preUpdate := preUpdate s; update := update s;
     postUpdate := postUpdate s; render := render s;
     loadUpdate := loadUpdate s; sys_load := sys_load s;
     sys_updates_running := sys_updates_running s;
     sys_mainloop_running := sys_mainloop_running s; sys_fbo := sys_fbo s |}.

Definition with_settings_key (k : string) (s : State) : State :=
  {| game_set := game_set s; settings_key := k;
     settings_active := settings_active s; settings_x := settings_x s;
     settings_y := settings_y s; settings_width := settings_width s;
     settings_height := settings_height s; init := init s;
     preload := preload s; create := create s; shutdown := shutdown s;
     preUpdate := preUpdate s; update := update s;
     postUpdate := postUpdate s; render := render s;
     loadUpdate := loadUpdate s; sys_load := sys_load s;
     sys_updates_running := sys_updates_running s;
     sys_mainloop_running := sys_mainloop_running s; sys_fbo := sys_fbo s |}.

Definition with_settings_active (b : bool) (s : State) : State :=
  {| game_set := game_set s; settings_key := settings_key s;
     settings_active := b; settings_x := settings_x s;
     settings_y := settings_y s; settings_width := settings_width s;
     settings_height := settings_height s; init := init s;
     preload := preload s; create := create s; shutdown := shutdown s;
     preUpdate := preUpdate s; update := update s;
     postUpdate := postUpdate s; render := render s;
     loadUpdate := loadUpdate s; sys_load := sys_load s;
     sys_updates_running := sys_updates_running s;
     sys_mainloop_running := sys_mainloop_running s; sys_fbo := sys_fbo s |}.

Definition with_settings_size (wd ht : Z) (s : State) : State :=
  {| game_set := game_set s; settings_key := settings_key s;
     settings_active := settings_active s; settings_x := settings_x s;
     settings_y := settings_y s; settings_width := wd;
     settings_height := ht; init := init s;
     preload := preload s; create := create s; shutdown := shutdown s;
     preUpdate := preUpdate s; update := update s;
     postUpdate := postUpdate s; render := render s;
     loadUpdate := loadUpdate s; sys_load := sys_load s;
     sys_updates_running := sys_updates_running s;
     sys_mainloop_running := sys_mainloop_running s; sys_fbo := sys_fbo s |}.

Definition with_sys_load (l : option Loader) (s : State) : State :=
  {| game_set := game_set s; settings_key := settings_key s;
     settings_active := settings_active s; settings_x := settings_x s;
     settings_y := settings_y s; settings_width := settings_width s;
     settings_height := settings_height s; init := init s;
     preload := preload s; create := create s; shutdown := shutdown s;
     preUpdate := preUpdate s; update := update s;
     postUpdate := postUpdate s; render := render s;
     loadUpdate := loadUpdate s; sys_load := l;
     sys_updates_running := sys_updates_running s;
     sys_mainloop_running := sys_mainloop_running s; sys_fbo := sys_fbo s |}.

Definition with_sys_updates_running (b : bool) (s : State) : State :=
  {| game_set := game_set s; settings_key := settings_key s;
     settings_active := settings_active s; settings_x := settings_x s;
     settings_y := settings_y s; settings_width := settings_width s;
     settings_height := settings_height s; init := init s;
     preload := preload s; create := create s; shutdown := shutdown s;
     preUpdate := preUpdate s; update := update s;
     postUpdate := postUpdate s; render := render s;
     loadUpdate := loadUpdate s; sys_load := sys_load s;
     sys_updates_running := b;
     sys_mainloop_running := sys_mainloop_running s; sys_fbo := sys_fbo s |}.

Definition with_sys_mainloop_running (b : bool) (s : State) : State :=
  {| game_set := game_set s; settings_key := settings_key s;
     settings_active := settings_active s; settings_x := settings_x s;
     settings_y := settings_y s; settings_width := settings_width s;
     settings_height := settings_height s; init := init s;
     preload := preload s; create := create s; shutdown := shutdown s;
     preUpdate := preUpdate s; update := update s;
     postUpdate := postUpdate s; render := render s;
     loadUpdate := loadUpdate s; sys_load := sys_load s;
     sys_updates_running := sys_updates_running s;
     sys_mainloop_running := b; sys_fbo := sys_fbo s |}.

Definition with_sys_fbo (t : option (Z * Z * Z * Z)) (s : State) : State :=
  {| game_set := game_set s; settings_key := settings_key s;
     settings_active := settings_active s; settings_x := settings_x s;
     settings_y := settings_y s; settings_width := settings_width s;
     settings_height := settings_height s; init := init s;
     preload := preload s; create := create s; shutdown := shutdown s;
     preUpdate := preUpdate s; update := update s;
     postUpdate := postUpdate s; render := render s;
     loadUpdate := loadUpdate s; sys_load := sys_load s;
     sys_updates_running := sys_updates_running s;
     sys_mainloop_running := sys_mainloop_running s; sys_fbo := t |}.

Definition with_cfg_key (k : string) (c : Config) : Config :=
  {| cfg_key := Some k; cfg_active := cfg_active c; cfg_x := cfg_x c;
     cfg_y := cfg_y c; cfg_width := cfg_width c; cfg_height := cfg_height c;
     cfg_init := cfg_init c; cfg_preload := cfg_preload c;
     cfg_create := cfg_create c; cfg_shutdown := cfg_shutdown c;
     cfg_preUpdate := cfg_preUpdate c; cfg_update := cfg_update c;
     cfg_postUpdate := cfg_postUpdate c; cfg_render := cfg_render c |}.

Definition with_autoStart (b : bool) (e : Pending) : Pending :=
  {| p_index := p_index e; p_key := p_key e; p_state := p_state e;
     p_autoStart := b |}.

(** ** Collaborators *)

Definition cfg (c : ref) (w : World) : Config := cfgs w !!! c.

Definition enqueue (n : nat) (s : State) : State :=
  with_sys_load
    (match sys_load s with
     | Some l => Some {| list_size := (list_size l + n)%nat |}
     | None => None
     end) s.

(** [state.<h>.call(state)]: the call is recorded and the callback pushes
    its loadables onto the loader of its own state. *)
Definition call (st : ref) (h : HookName) (f : Callback) (w : World) : World :=
  modify st (enqueue (loads_of f)) (emit (Call st h f) w).

(** Modelled from the spec: Settings.js is not under src.  The settings bag
    reads its fields from the configuration record; the key defaults to the
    empty string, the active flag to false and the size to the "unset"
    sentinel -1. *)
Definition new_Settings (k : string) (c : Config) (s : State) : State :=
  {| game_set := game_set s; settings_key := k;
     settings_active := default false (cfg_active c);
     settings_x := default 0 (cfg_x c); settings_y := default 0 (cfg_y c);
     settings_width := default (-1) (cfg_width c);
     settings_height := default (-1) (cfg_height c);
     init := init s; preload := preload s; create := create s;
     shutdown := shutdown s; preUpdate := preUpdate s; update := update s;
     postUpdate := postUpdate s; render := render s;
     loadUpdate := loadUpdate s; sys_load := sys_load s;
     sys_updates_running := sys_updates_running s;
     sys_mainloop_running := sys_mainloop_running s; sys_fbo := sys_fbo s |}.

(** Modelled from the spec: Systems.js is not under src.  A new systems
    handle has no loader, no render target and a stopped main loop yet. *)
Definition new_Systems (s : State) : State :=
  with_sys_fbo None
    (with_sys_mainloop_running false
       (with_sys_updates_running false (with_sys_load None s))).

(** Modelled from the spec: State.js is not under src.  [new State(config)]
    builds the settings from the record and a systems handle of its own. *)
Definition new_State (c : Config) : State :=
  new_Systems (new_Settings (default "" (cfg_key c)) c blank_State).

(** Modelled from the spec: Systems.js is not under src.  [sys.init()] wires
    the private subsystems of the state, among them its loader, whose queue
    starts empty. *)
Definition sys_init (st : ref) (w : World) : World :=
  modify st (with_sys_load (Some {| list_size := 0 |})) (emit (SysInit st) w).

(** Modelled from the spec: the loader is not under src.  [reset()] empties
    the queue. *)
Definition load_reset (st : ref) (w : World) : World :=
  modify st
    (fun s => with_sys_load
                (match sys_load s with
                 | Some _ => Some {| list_size := 0 |}
                 | None => None
                 end) s)
    (emit (LoaderReset st) w).

(** Modelled from the spec: the main loop is not under src.  [start()] is a
    command to the driver, after which it reports running. *)
Definition mainloop_start (st : ref) (w : World) : World :=
  modify st (with_sys_mainloop_running true) (emit (MainLoopStart st) w).

(** Modelled from the spec: utils/GetObjectValue is not under src.  The
    named property when the object has it, else the default. *)
Definition GetObjectValue (v : option Callback) (d : Callback) : option Callback :=
  Some (default d v).

(** [objs.push]: a new object gets the next free address. *)
Definition alloc (s : State) (w : World) : ref * World :=
  (length (objs w), set_objs (objs w ++ [s]) w).

(** ** Arrays *)

(** [Array.prototype.indexOf] on an array of State references. *)
Fixpoint indexOf_from (l : list ref) (x : ref) (i : Z) : Z :=
  match l with
  | [] => -1
  | y :: l' => if Nat.eqb y x then i else indexOf_from l' x (i + 1)
  end.

Definition indexOf (l : list ref) (x : ref) : Z := indexOf_from l x 0.

(** [Array.prototype.indexOf] on [this.active], whose elements are the
    [{index, state}] literals. *)
Fixpoint active_indexOf_from (l : list ActiveRecord) (v : Value) (i : Z) : Z :=
  match l with
  | [] => -1
  | a :: l' =>
      if strict_eq (VLiteral (ar_id a)) v then i
      else active_indexOf_from l' v (i + 1)
  end.

Definition active_indexOf (l : list ActiveRecord) (v : Value) : Z :=
  active_indexOf_from l v 0.

(** [Array.prototype.sort] with a comparator, as a stable insertion sort:
    [x] is placed before the first element that does not compare below it. *)
Fixpoint sort_insert {A} (cmp : A -> A -> Z) (x : A) (l : list A) : list A :=
  match l with
  | [] => [x]
  | y :: l' => if cmp y x <=? 0 then y :: sort_insert cmp x l' else x :: y :: l'
  end.

Definition array_sort {A} (cmp : A -> A -> Z) (l : list A) : list A :=
  fold_left (fun acc x => sort_insert cmp x acc) l [].

(** ** StateManager *)

Inductive StateConfigArg :=
| NoStateConfig
| OneStateConfig (s : Source)
| ArrayStateConfig (l : list Source).

(** The constructor; [o] and [c] are the objects that exist already. *)
Definition StateManager (g : Game) (o : list State) (c : list Config)
    (stateConfig : StateConfigArg) : World :=
  {| game := g; keys := ∅; keys_proto := None; states := []; active := [];
     _pending :=
       match stateConfig with
       | NoStateConfig => []
       | ArrayStateConfig l =>
           imap (fun i s => {| p_index := i; p_key := Some "default"%string;
                               p_state := s; p_autoStart := Nat.eqb i 0 |}) l
       | OneStateConfig s =>
           [ {| p_index := 0; p_key := Some "default"%string; p_state := s;
                p_autoStart := true |} ]
       end;
     literals := 0; objs := o; cfgs := c; log := [] |}.

(** Lines 91-100 of [getKey]: the key before the duplicate check. *)
Definition effective_key (key : option string) (stateConfig : Source)
    (w : World) : string :=
  let key :=
    match key with
    | Some k => if String.eqb k "" then "default"%string else k
    | None => "default"%string
    end in
  match stateConfig with
  | SrcInstance r => settings_key (obj r w)
  | SrcObject c =>
      match cfg_key (cfg c w) with
      | Some k => k
      | None => key
      end
  | SrcFunction _ => key
  end.

(** The methods of Object.prototype, which a plain object inherits. *)
Definition Object_prototype_methods : list string :=
  [ "constructor"; "hasOwnProperty"; "isPrototypeOf"; "propertyIsEnumerable";
    "toLocaleString"; "toString"; "valueOf"; "__defineGetter__";
    "__defineSetter__"; "__lookupGetter__"; "__lookupSetter__" ]%string.

Definition Object_prototype_get (name : string) : Lookup :=
  if decide (name ∈ Object_prototype_methods) then Other (ObjectMethod name)
  else Undefined.

(** Modelled from the spec: State.js is not under src.  The hook a State
    object carries under a name. *)
Definition State_hook (name : string) (s : State) : option Callback :=
  if decide (name = "init"%string) then init s
  else if decide (name = "preload"%string) then preload s
  else if decide (name = "create"%string) then create s
  else if decide (name = "shutdown"%string) then shutdown s
  else if decide (name = "preUpdate"%string) then preUpdate s
  else if decide (name = "update"%string) then update s
  else if decide (name = "postUpdate"%string) then postUpdate s
  else if decide (name = "render"%string) then render s
  else if decide (name = "loadUpdate"%string) then loadUpdate s
  else None.

(** Modelled from the spec: State.js is not under src.  The names under
    which a State object holds something: its settings, its systems handle,
    the host once it is linked, and the hooks it has; beyond these it
    inherits from Object.prototype only.  (A host link that is not set reads
    as null; the manager cannot tell that from undefined.) *)
Definition State_has (name : string) (s : State) : bool :=
  if decide (name = "settings"%string) then true
  else if decide (name = "sys"%string) then true
  else if decide (name = "game"%string) then game_set s
  else bool_decide (is_Some (State_hook name s)).

(** [this.keys[key]]: an own property; else, for '__proto__', the
    prototype of [this.keys]; else what the prototype chain holds under the
    name. *)
Definition getState (key : string) (w : World) : Lookup :=
  match keys w !! key with
  | Some state => StateObject state
  | None =>
      match keys_proto w with
      | None =>
          if decide (key = "__proto__"%string) then Other ObjectPrototype
          else Object_prototype_get key
      | Some p =>
          if decide (key = "__proto__"%string) then StateObject p
          else if State_has key (obj p w) then Other (StateMember p key)
          else Object_prototype_get key
      end
  end.

(** [this.keys.hasOwnProperty(key)]: the method is itself read from
    [this.keys], where a State registered as 'hasOwnProperty' is found
    first, and a State is not a function. *)
Definition keys_hasOwnProperty (key : string) (w : World) : Outcome bool :=
  match getState "hasOwnProperty" w with
  | Other (ObjectMethod _) => Return (bool_decide (is_Some (keys w !! key)))
  | _ => Throw TypeError
  end.

(** [this.keys[key] = newState]: an own property, except that assigning an
    object to '__proto__' makes it the prototype and creates no property. *)
Definition keys_put (key : string) (newState : ref) (w : World) : World :=
  if decide (key = "__proto__"%string) then set_keys_proto (Some newState) w
  else set_keys (<[key := newState]> (keys w)) w.

Definition getKey (key : option string) (stateConfig : Source) (w : World)
    : Outcome string :=
  let key := effective_key key stateConfig w in
  match keys_hasOwnProperty key w with
  | Throw e => Throw e
  | Return true => Throw (DuplicateKey key)
  | Return false => Return key
  end.

Definition createStateFrameBuffer (newState : ref) (w : World) : World :=
  let x := settings_x (obj newState w) in
  let y := settings_y (obj newState w) in
  let width :=
    if settings_width (obj newState w) =? -1 then config_width (game w)
    else settings_width (obj newState w) in
  let height :=
    if settings_height (obj newState w) =? -1 then config_height (game w)
    else settings_height (obj newState w) in
  let w := modify newState (with_settings_size width height) w in
  modify newState (with_sys_fbo (Some (x, y, width, height)))
    (emit (CreateFBO newState x y width height) w).

Definition frame_buffer_if_webgl (newState : ref) (w : World) : World :=
  match renderType (game w) with
  | WEBGL => createStateFrameBuffer newState w
  | CANVAS => w
  end.

Definition setupCallbacks (newState : ref)
    (i p c s pre u post r : option Callback) (w : World) : World :=
  modify newState
    (fun o =>
       {| game_set := game_set o; settings_key := settings_key o;
          settings_active := settings_active o; settings_x := settings_x o;
          settings_y := settings_y o; settings_width := settings_width o;
          settings_height := settings_height o;
          init := GetObjectValue i NOOP;
          preload := GetObjectValue p NOOP;
          create := GetObjectValue c NOOP;
          shutdown := GetObjectValue s NOOP;
          preUpdate := GetObjectValue pre NOOP;
          update := GetObjectValue u NOOP;
          postUpdate := GetObjectValue post NOOP;
          render := GetObjectValue r NOOP;
          loadUpdate := loadUpdate o; sys_load := sys_load o;
          sys_updates_running := sys_updates_running o;
          sys_mainloop_running := sys_mainloop_running o;
          sys_fbo := sys_fbo o |}) w.

Definition createStateFromInstance (key : string) (newState : ref)
    (w : World) : ref * World :=
  let w := modify newState with_game_set w in
  let w := modify newState (with_settings_key key) w in
  let w := sys_init newState w in
  let w := frame_buffer_if_webgl newState w in
  (newState, w).

Definition createStateFromObject (key : string) (stateConfig : ref)
    (w : World) : ref * World :=
  let sc := cfg stateConfig w in
  let '(newState, w) := alloc (new_State sc) w in
  let w := modify newState with_game_set w in
  let w := sys_init newState w in
  let w := frame_buffer_if_webgl newState w in
  (newState,
   setupCallbacks newState (cfg_init sc) (cfg_preload sc) (cfg_create sc)
     (cfg_shutdown sc) (cfg_preUpdate sc) (cfg_update sc)
     (cfg_postUpdate sc) (cfg_render sc) w).

Definition createStateFromFunction (key : string) (state : Factory)
    (w : World) : ref * World :=
  let '(newState, w) := alloc (product state) w in
  if instance_of_State state then createStateFromInstance key newState w
  else
    let w := modify newState with_game_set w in
    let w := modify newState (new_Settings key blank_Config) w in
    let w := modify newState new_Systems w in
    let w := sys_init newState w in
    let w := frame_buffer_if_webgl newState w in
    let o := obj newState w in
    (newState,
     setupCallbacks newState (init o) (preload o) (create o) (shutdown o)
       (preUpdate o) (update o) (postUpdate o) (render o) w).

Definition getStateIndex (state : ref) (w : World) : Z :=
  indexOf (states w) state.

Fixpoint getActiveStateIndex_loop (l : list ActiveRecord) (state : Value) : Z :=
  match l with
  | [] => -1
  | a :: l' =>
      if strict_eq (VState (ar_state a)) state then ar_index a
      else getActiveStateIndex_loop l' state
  end.

Definition getActiveStateIndex (state : Value) (w : World) : Z :=
  getActiveStateIndex_loop (active w) state.

(** The truth value of [state && state.settings.active &&
    this.active.indexOf(state) !== -1]; reading [settings.active] of a value
    without [settings] throws. *)
Definition isActive (key : string) (w : World) : Outcome bool :=
  match getState key w with
  | Undefined => Return false
  | StateObject state =>
      Return (settings_active (obj state w)
              && negb (active_indexOf (active w) (VState state) =? -1))
  | Other _ => Throw TypeError
  end.

Definition sortStates (stateA stateB : ActiveRecord) : Z :=
  if ar_index stateA <? ar_index stateB then -1
  else if ar_index stateA >? ar_index stateB then 1
  else 0.

Definition startCreate (state : ref) (w : World) : World :=
  let w :=
    match create (obj state w) with
    | Some f => call state Create f w
    | None => w
    end in
  let i := getStateIndex state w in
  let w :=
    set_literals (S (literals w))
      (set_active
         (active w ++ [ {| ar_id := literals w; ar_index := i;
                           ar_state := state |} ]) w) in
  let w := set_active (array_sort sortStates (active w)) w in
  let w := modify state (with_sys_updates_running true) w in
  mainloop_start state w.

Definition start (key : string) (w : World) : World * Outcome unit :=
  if negb (isBooted (game w)) then
    (set_pending
       (map (fun entry =>
               if decide (p_key entry = Some key) then with_autoStart true entry
               else entry) (_pending w)) w,
     Return tt)
  else
    match getState key w with
    | Undefined => (w, Return tt)
    | found =>
        match isActive key w with
        | Throw e => (w, Throw e)
        | Return true => (w, Return tt)
        | Return false =>
            match found with
            | StateObject state =>
                (let w := modify state (with_settings_active true) w in
                 let w :=
                   match init (obj state w) with
                   | Some f => call state Init f w
                   | None => w
                   end in
                 match preload (obj state w), sys_load (obj state w) with
                 | Some f, Some _ =>
                     let w := load_reset state w in
                     let w := call state Preload f w in
                     match sys_load (obj state w) with
                     | Some l =>
                         if Nat.eqb (list_size l) 0 then startCreate state w
                         else emit (LoaderStart state)
                                (emit (LoaderOnce state) w)
                     | None => w
                     end
                 | _, _ => startCreate state w
                 end,
                 Return tt)
            | _ => (w, Throw TypeError)   (* no settings to write to *)
            end
        end
    end.

(** [event.loader.state] is the argument. *)
Definition loadComplete (state : ref) (w : World) : World :=
  let w :=
    match loadUpdate (obj state w) with
    | Some f => call state LoadUpdate f w
    | None => w
    end in
  startCreate state w.

Definition pause (key : Value) (w : World) : World * Outcome unit :=
  let index := getActiveStateIndex key w in
  if index >? -1 then
    match getState (ToString key) w with
    | StateObject state =>
        let w := modify state (with_settings_active false) w in
        let w := set_active (delete (Z.to_nat index) (active w)) w in
        let w := set_active (array_sort sortStates (active w)) w in
        (w, Return tt)
    | _ => (w, Throw TypeError)           (* no settings to write to *)
    end
  else (w, Return tt).

Definition step (timestamp : Z) (w : World) : World :=
  fold_left
    (fun w a =>
       let state := ar_state a in
       if sys_mainloop_running (obj state w)
       then emit (MainLoopStep state timestamp) w
       else w)
    (active w) w.

Definition add (key : option string) (stateConfig : Source)
    (autoStart : option bool) (w : World) : World * Outcome (option ref) :=
  let autoStart := default false autoStart in
  if negb (isBooted (game w)) then
    (set_pending
       (_pending w ++ [ {| p_index := length (_pending w); p_key := key;
                           p_state := stateConfig;
                           p_autoStart := autoStart |} ]) w,
     Return None)
  else
    match getKey key stateConfig w with
    | Throw e => (w, Throw e)
    | Return key =>
        let '(newState, w) :=
          match stateConfig with
          | SrcInstance r => createStateFromInstance key r w
          | SrcObject c =>
              let w :=
                set_cfgs (<[c := with_cfg_key key (cfg c w)]> (cfgs w)) w in
              createStateFromObject key c w
          | SrcFunction f => createStateFromFunction key f w
          end in
        let w := keys_put key newState w in
        let w := set_states (states w ++ [newState]) w in
        if autoStart || settings_active (obj newState w) then
          if isBooted (game w) then
            match start key w with
            | (w, Throw e) => (w, Throw e)
            | (w, Return _) => (w, Return (Some newState))
            end
          else (w, Throw TypeError)     (* this._start is never set up *)
        else (w, Return (Some newState))
    end.

(** The loop of [boot] reads [this._pending.length] at every turn; [fuel]
    bounds the number of turns. *)
Fixpoint boot_loop (fuel : nat) (i : nat) (w : World)
    : option (World * Outcome unit) :=
  match fuel with
  | O => None
  | S fuel =>
      match _pending w !! i with
      | None => Some (set_pending [] w, Return tt)
      | Some entry =>
          match add (p_key entry) (p_state entry) (Some (p_autoStart entry)) w with
          | (w, Throw e) => Some (w, Throw e)
          | (w, Return _) => boot_loop fuel (S i) w
          end
      end
  end.

Definition boot (fuel : nat) (w : World) : option (World * Outcome unit) :=
  boot_loop fuel 0 w.

(** ** Vocabulary of the statements *)

(** The active list in ascending order of registration index. *)
Definition ascending (l : list ActiveRecord) : Prop :=
  StronglySorted (fun a b => ar_index a <= ar_index b) l.

(** The state has a record in the active list. *)
Definition in_active (state : ref) (w : World) : Prop :=
  exists a, a ∈ active w /\ ar_state a = state.

(** The literal [{index: i, state: state}] that [startCreate] pushes. *)
Definition new_record (state : ref) (w : World) : ActiveRecord :=
  {| ar_id := literals w; ar_index := getStateIndex state w; ar_state := state |}.

Definition init_events (state : ref) (w : World) : list Event :=
  match init (obj state w) with
  | Some f => [Call state Init f]
  | None => []
  end.

Definition preload_events (state : ref) (w : World) : list Event :=
  match preload (obj state w), sys_load (obj state w) with
  | Some f, Some _ => [LoaderReset state; Call state Preload f]
  | _, _ => []
  end.

Definition create_events (state : ref) (w : World) : list Event :=
  match create (obj state w) with
  | Some f => [Call state Create f]
  | None => []
  end.

Definition loadUpdate_events (state : ref) (w : World) : list Event :=
  match loadUpdate (obj state w) with
  | Some f => [Call state LoadUpdate f]
  | None => []
  end.

(** The records of the active list whose main loop reports running. *)
Definition running_records (w : World) : list ActiveRecord :=
  List.filter (fun a => sys_mainloop_running (obj (ar_state a) w)) (active w).

(** The key argument of [add] when it is a non-empty string, else the
    literal default key. *)
Definition key_or_default (key : option string) : string :=
  match key with
  | Some k => if String.eqb k "" then "default"%string else k
  | None => "default"%string
  end.

(** The record [add] leaves in the queue before boot. *)
Definition pending_record (key : option string) (stateConfig : Source)
    (autoStart : option bool) (w : World) : Pending :=
  {| p_index := length (_pending w); p_key := key; p_state := stateConfig;
     p_autoStart := default false autoStart |}.

(** The replay of the queue as the spec words it: [add] for each buffered
    entry, in insertion order, with the buffered key, source and autoStart;
    an [add] that throws ends the replay. *)
Fixpoint replay (l : list Pending) (w : World) : World * Outcome unit :=
  match l with
  | [] => (w, Return tt)
  | entry :: l =>
      match add (p_key entry) (p_state entry) (Some (p_autoStart entry)) w with
      | (w, Throw e) => (w, Throw e)
      | (w, Return _) => replay l w
      end
  end.

(** What [boot] does with the outcome of the replay: the queue is emptied
    once the replay has returned. *)
Definition clear_after (r : World * Outcome unit) : World * Outcome unit :=
  match r with
  | (w, Return _) => (set_pending [] w, Return tt)
  | (w, Throw e) => (w, Throw e)
  end.

(** The host finishes booting. *)
Definition game_booted (w : World) : World :=
  {| game := {| isBooted := true; renderType := renderType (game w);
                config_width := config_width (game w);
                config_height := config_height (game w) |};
     keys := keys w; keys_proto := keys_proto w; states := states w;
     active := active w; _pending := _pending w; literals := literals w;
     objs := objs w; cfgs := cfgs w; log := log w |}.

(** Either the active list is as it was, or it has just been sorted. *)
Definition keeps_sorted (w w' : World) : Prop :=
  active w' = active w \/ ascending (active w').

(** The State that [add] builds or adopts, and the world it leaves, before
    the registry is touched. *)
Definition adapted (key : string) (stateConfig : Source) (w : World)
    : ref * World :=
  match stateConfig with
  | SrcInstance r => createStateFromInstance key r w
  | SrcObject c =>
      createStateFromObject key c
        (set_cfgs (<[c := with_cfg_key key (cfg c w)]> (cfgs w)) w)
  | SrcFunction f => createStateFromFunction key f w
  end.

(** ** Small scenarios *)

Definition a_game (booted : bool) : Game :=
  {| isBooted := booted; renderType := WEBGL;
     config_width := 800; config_height := 600 |}.

(** A booted manager and three empty configuration records [{}]. *)
Definition three_records : World :=
  StateManager (a_game true) [] [blank_Config; blank_Config; blank_Config]
    NoStateConfig.

(** [add('A', {})] *)
Definition A_added : World :=
  fst (add (Some "A"%string) (SrcObject 0%nat) None three_records).

(** [add('A', {}); start('A')] *)
Definition A_started : World := fst (start "A" A_added).

(** [add('A', {}); add('B', {}); add('C', {})] *)
Definition ABC_added : World :=
  fst (add (Some "C"%string) (SrcObject 2%nat) None
         (fst (add (Some "B"%string) (SrcObject 1%nat) None A_added))).

(** [add(undefined, {})] registers under the default key. *)
Definition default_added : World :=
  fst (add None (SrcObject 0%nat) None three_records).

(** [add('__proto__', {})]: the State becomes the prototype of the key
    object. *)
Definition proto_added : World :=
  fst (add (Some "__proto__"%string) (SrcObject 0%nat) None three_records).

(** [add('hasOwnProperty', {})] *)
Definition hasOwnProperty_added : World :=
  fst (add (Some "hasOwnProperty"%string) (SrcObject 0%nat) None
         three_records).

(** A booted manager and the record [{key: 'B'}]. *)
Definition keyed_record : World :=
  StateManager (a_game true) [] [with_cfg_key "B" blank_Config] NoStateConfig.

(** Before boot: [add('A', {}); add('A', {}); add('B', {})]. *)
Definition queued_twice : World :=
  fst (add (Some "B"%string) (SrcObject 2%nat) None
    (fst (add (Some "A"%string) (SrcObject 1%nat) None
      (fst (add (Some "A"%string) (SrcObject 0%nat) None
        (StateManager (a_game false) []
           [blank_Config; blank_Config; blank_Config] NoStateConfig)))))).

(** A record whose preload hook queues two loadables and the state built
    from it, registered as 'L'. *)
Definition loading_record : Config :=
  {| cfg_key := None; cfg_active := None; cfg_x := None; cfg_y := None;
     cfg_width := None; cfg_height := None; cfg_init := Some (Fn 0);
     cfg_preload := Some (Fn 2); cfg_create := Some (Fn 0);
     cfg_shutdown := None; cfg_preUpdate := None; cfg_update := None;
     cfg_postUpdate := None; cfg_render := None |}.

Definition L_added : World :=
  fst (add (Some "L"%string) (SrcObject 0%nat) None
         (StateManager (a_game true) [] [loading_record] NoStateConfig)).


(** ** Reachable worlds *)

(** A source the caller can pass: an instance or a record is an object that
    exists. *)
Definition well_formed (stateConfig : Source) (w : World) : Prop :=
  match stateConfig with
  | SrcInstance r => (r < length (objs w))%nat
  | SrcObject c => (c < length (cfgs w))%nat
  | SrcFunction _ => True
  end.

Definition well_formed_arg (stateConfig : StateConfigArg) (w : World) : Prop :=
  match stateConfig with
  | NoStateConfig => True
  | OneStateConfig s => well_formed s w
  | ArrayStateConfig l => Forall (fun s => well_formed s w) l
  end.

(** The worlds the host and the caller can bring about: the manager is
    built, the host boots and calls [boot], the loader reports completion,
    and the caller uses the public operations. *)
Inductive reachable : World -> Prop :=
| reach_new g o c stateConfig :
    well_formed_arg stateConfig (StateManager g o c stateConfig) ->
    reachable (StateManager g o c stateConfig)
| reach_game_booted w : reachable w -> reachable (game_booted w)
| reach_boot fuel w w' out :
    reachable w -> boot fuel w = Some (w', out) -> reachable w'
| reach_add key stateConfig autoStart w :
    reachable w -> well_formed stateConfig w ->
    reachable (fst (add key stateConfig autoStart w))
| reach_start key w : reachable w -> reachable (fst (start key w))
| reach_loadComplete state w : reachable w -> reachable (loadComplete state w)
| reach_pause key w : reachable w -> reachable (fst (pause key w))
| reach_step timestamp w : reachable w -> reachable (step timestamp w).

Record invariant (w : World) : Prop := {
  inv_unbooted :
    isBooted (game w) = false -> keys w = ∅ /\ keys_proto w = None;
  inv_registered :
    forall key state, keys w !! key = Some state ->
                      (state < length (objs w))%nat;
  inv_proto :
    forall state, keys_proto w = Some state -> (state < length (objs w))%nat;
  inv_pending :
    forall entry, entry ∈ _pending w -> well_formed (p_state entry) w
}.


(** ** Vocabulary of the further properties *)

(** The number of loadables the preload phase of [start] leaves in the
    loader queue: those of the preload hook, when the state has the hook
    and a loader; none otherwise. *)
Definition preload_queue (s : State) : nat :=
  match preload s, sys_load s with
  | Some f, Some _ => loads_of f
  | _, _ => 0%nat
  end.

(** All the callbacks of a State object. *)
Definition hooks (s : State) :=
  (init s, preload s, create s, shutdown s, preUpdate s, update s,
   postUpdate s, render s, loadUpdate s).

(** A reading of a State object that the updates of [sys], of the size in
    [settings] and of the host link leave alone. *)
Definition stable {A} (p : State -> A) : Prop :=
  (forall l s, p (with_sys_load l s) = p s)
  /\ (forall b s, p (with_sys_mainloop_running b s) = p s)
  /\ (forall b s, p (with_sys_updates_running b s) = p s)
  /\ (forall t s, p (with_sys_fbo t s) = p s)
  /\ (forall x y s, p (with_settings_size x y s) = p s)
  /\ (forall s, p (with_game_set s) = p s).

(** The key and the callbacks of a State object. *)
Definition identity (s : State) := (settings_key s, hooks s).

(** Whether the source asks to be started: the active flag in the settings
    of an instance, the active property of a record; a bare object built by
    a function gets fresh settings, which are not active. *)
Definition source_active (stateConfig : Source) (w : World) : bool :=
  match stateConfig with
  | SrcInstance r => settings_active (obj r w)
  | SrcObject c => default false (cfg_active (cfg c w))
  | SrcFunction f =>
      if instance_of_State f then settings_active (product f) else false
  end.

(** A source that carries no key of its own: a record without a key
    property, or a function. *)
Definition keyless (stateConfig : Source) (w : World) : Prop :=
  match stateConfig with
  | SrcInstance _ => False
  | SrcObject c => cfg_key (cfg c w) = None
  | SrcFunction _ => True
  end.

(** The listed states that are registered under a key other than
    '__proto__', in the order of registration. *)
Definition named (w : World) : list ref :=
  filter (fun r => settings_key (obj r w) <> "__proto__"%string) (states w).

(** The key object and the state list describe the same registry.  A State
    listed under a key other than '__proto__' is the own property of that
    key; every own property is a listed State carrying the key in its
    settings, and none is called '__proto__'; the prototype, when it is a
    State, is a listed State with the key '__proto__'; the states with
    another key are listed once, and there are as many of them as keys. *)
Record registry_ok (w : World) : Prop := {
  reg_listed :
    forall r, r ∈ states w ->
              settings_key (obj r w) <> "__proto__"%string ->
              keys w !! settings_key (obj r w) = Some r;
  reg_keyed :
    forall k r, keys w !! k = Some r ->
                r ∈ states w /\ settings_key (obj r w) = k
                /\ k <> "__proto__"%string;
  reg_proto :
    forall p, keys_proto w = Some p ->
              p ∈ states w /\ settings_key (obj p w) = "__proto__"%string;
  reg_valid : forall r, r ∈ states w -> (r < length (objs w))%nat;
  reg_nodup : NoDup (named w);
  reg_size : size (keys w) = length (named w)
}.

(** A hook as [setupCallbacks] installs it: the given one, or NOOP. *)
Definition defaulted (v : option Callback) : option Callback :=
  Some (default NOOP v).

(** The callbacks a state has once [add] has registered it: those of the
    record or of the bare object with NOOP for the missing ones, and for a
    State instance (given as such or built by a function) its own. *)
Definition installed_hooks (stateConfig : Source) (w : World) :=
  match stateConfig with
  | SrcInstance r => hooks (obj r w)
  | SrcObject c =>
      (defaulted (cfg_init (cfg c w)), defaulted (cfg_preload (cfg c w)),
       defaulted (cfg_create (cfg c w)), defaulted (cfg_shutdown (cfg c w)),
       defaulted (cfg_preUpdate (cfg c w)), defaulted (cfg_update (cfg c w)),
       defaulted (cfg_postUpdate (cfg c w)), defaulted (cfg_render (cfg c w)),
       @None Callback)
  | SrcFunction f =>
      if instance_of_State f then hooks (product f)
      else
        (defaulted (init (product f)), defaulted (preload (product f)),
         defaulted (create (product f)), defaulted (shutdown (product f)),
         defaulted (preUpdate (product f)), defaulted (update (product f)),
         defaulted (postUpdate (product f)), defaulted (render (product f)),
         loadUpdate (product f))
  end.



(** * Properties *)

(** ** Stores *)

Section Stores.
Implicit Types (w : World) (r st : ref) (f : State -> State).

Lemma obj_modify_same r f w :
  (r < length (objs w))%nat -> obj r (modify r f w) = f (obj r w).
Proof.
  intros Hr. unfold obj, modify. simpl.
  by rewrite list_lookup_total_insert_eq.
Qed.

Lemma obj_modify_other r st f w :
  st <> r -> obj r (modify st f w) = obj r w.
Proof.
  intros Hne. unfold obj, modify. simpl.
  by rewrite list_lookup_total_insert_ne.
Qed.

Lemma length_objs_modify st f w :
  length (objs (modify st f w)) = length (objs w).
Proof. unfold modify. simpl. apply length_insert. Qed.

Lemma obj_emit r e w : obj r (emit e w) = obj r w.
Proof. reflexivity. Qed.

(** Only an allocated address holds something else than the blank State. *)
Lemma obj_allocated r w : obj r w <> blank_State -> (r < length (objs w))%nat.
Proof.
  intros Hne. destruct (decide (r < length (objs w))%nat) as [|Hge]; [done|].
  exfalso. apply Hne. unfold obj.
  rewrite list_lookup_total_alt, lookup_ge_None_2 by lia. reflexivity.
Qed.
End Stores.

(** ** Arrays *)

Lemma sortStates_le a b : sortStates a b <= 0 <-> ar_index a <= ar_index b.
Proof.
  unfold sortStates.
  destruct (Z.ltb_spec (ar_index a) (ar_index b));
    [|destruct (Z.gtb_spec (ar_index a) (ar_index b))]; lia.
Qed.

Lemma sort_insert_perm {A} (cmp : A -> A -> Z) x l :
  sort_insert cmp x l ≡ₚ x :: l.
Proof.
  induction l as [|y l IH]; simpl; [done|].
  destruct (cmp y x <=? 0); [|done].
  rewrite IH. apply Permutation_swap.
Qed.

Lemma array_sort_acc_perm {A} (cmp : A -> A -> Z) l acc :
  fold_left (fun acc x => sort_insert cmp x acc) l acc ≡ₚ acc ++ l.
Proof.
  revert acc. induction l as [|x l IH]; intros acc; simpl.
  - by rewrite app_nil_r.
  - rewrite IH, sort_insert_perm. simpl. apply Permutation_middle.
Qed.

Lemma array_sort_perm {A} (cmp : A -> A -> Z) l : array_sort cmp l ≡ₚ l.
Proof. unfold array_sort. by rewrite array_sort_acc_perm. Qed.

Lemma sort_insert_ascending x l :
  ascending l -> ascending (sort_insert sortStates x l).
Proof.
  unfold ascending. induction 1 as [|y l Hl IH Hy]; simpl.
  - repeat constructor.
  - destruct (Z.leb_spec (sortStates y x) 0) as [Hle|Hgt].
    + constructor; [done|].
      apply sortStates_le in Hle.
      rewrite (sort_insert_perm sortStates x l).
      constructor; [exact Hle | exact Hy].
    + assert (ar_index x <= ar_index y) as Hxy.
      { destruct (Z.le_gt_cases (ar_index y) (ar_index x)) as [Hc|Hc]; [|lia].
        apply sortStates_le in Hc. lia. }
      constructor; [by constructor|].
      constructor; [done|].
      eapply Forall_impl; [exact Hy|]. simpl. intros; lia.
Qed.

Lemma array_sort_ascending l : ascending (array_sort sortStates l).
Proof.
  unfold array_sort.
  assert (forall acc, ascending acc ->
            ascending (fold_left (fun acc x => sort_insert sortStates x acc) l acc))
    as H.
  { induction l as [|x l IH]; intros acc Hacc; simpl; [done|].
    apply IH, sort_insert_ascending, Hacc. }
  apply H. constructor.
Qed.

(** An [{index, state}] literal is no State object: [indexOf] never finds a
    State in [this.active]. *)
Lemma active_indexOf_State l st : active_indexOf l (VState st) = -1.
Proof.
  unfold active_indexOf. generalize 0.
  induction l as [|a l IH]; intros i; simpl; [done|]. apply IH.
Qed.

(** So [isActive] never answers true; it throws for a key under which the
    prototype chain holds something that is no State. *)
Lemma isActive_false key w :
  isActive key w
  = match getState key w with
    | Other _ => Throw TypeError
    | _ => Return false
    end.
Proof.
  unfold isActive. destruct (getState key w); [done| |done].
  rewrite active_indexOf_State. simpl. by rewrite andb_false_r.
Qed.

(** A State object is no string: [getActiveStateIndex] called with a key
    finds nothing. *)
Lemma getActiveStateIndex_key k w : getActiveStateIndex (VString k) w = -1.
Proof.
  unfold getActiveStateIndex.
  induction (active w) as [|a l IH]; simpl; [done|]. apply IH.
Qed.

Lemma pause_key k w : pause (VString k) w = (w, Return tt).
Proof. unfold pause. by rewrite getActiveStateIndex_key. Qed.

(** ** Reading an object after an update *)

Section Frames.
Variables (r : ref) (w : World).

Lemma obj_set_keys k : obj r (set_keys k w) = obj r w.
Proof. reflexivity. Qed.
Lemma obj_set_keys_proto p : obj r (set_keys_proto p w) = obj r w.
Proof. reflexivity. Qed.
Lemma obj_keys_put k n : obj r (keys_put k n w) = obj r w.
Proof. unfold keys_put. by case_decide. Qed.
Lemma obj_set_states l : obj r (set_states l w) = obj r w.
Proof. reflexivity. Qed.
Lemma obj_set_active l : obj r (set_active l w) = obj r w.
Proof. reflexivity. Qed.
Lemma obj_set_pending l : obj r (set_pending l w) = obj r w.
Proof. reflexivity. Qed.
Lemma obj_set_literals n : obj r (set_literals n w) = obj r w.
Proof. reflexivity. Qed.
Lemma obj_set_cfgs l : obj r (set_cfgs l w) = obj r w.
Proof. reflexivity. Qed.
End Frames.

Create Rewrite HintDb store.
#[local] Hint Rewrite obj_emit obj_set_keys obj_set_keys_proto obj_keys_put
  obj_set_states obj_set_active obj_set_pending obj_set_literals
  obj_set_cfgs : store.

Ltac valid_ref :=
  unfold call, load_reset, mainloop_start, sys_init, modify; simpl;
  rewrite ?length_insert; done.

Section Collaborators.
Variables (st : ref) (w : World).
Hypothesis Hst : (st < length (objs w))%nat.

Lemma obj_call h f : obj st (call st h f w) = enqueue (loads_of f) (obj st w).
Proof. unfold call. by rewrite obj_modify_same. Qed.

Lemma obj_load_reset :
  obj st (load_reset st w)
  = with_sys_load (match sys_load (obj st w) with
                   | Some _ => Some {| list_size := 0 |}
                   | None => None
                   end) (obj st w).
Proof. unfold load_reset. by rewrite obj_modify_same. Qed.

Lemma obj_mainloop_start :
  obj st (mainloop_start st w) = with_sys_mainloop_running true (obj st w).
Proof. unfold mainloop_start. by rewrite obj_modify_same. Qed.

Lemma obj_sys_init :
  obj st (sys_init st w) = with_sys_load (Some {| list_size := 0 |}) (obj st w).
Proof. unfold sys_init. by rewrite obj_modify_same. Qed.
End Collaborators.

Ltac obj_simpl :=
  repeat first
    [ progress autorewrite with store
    | rewrite obj_modify_same by valid_ref
    | rewrite obj_call by valid_ref
    | rewrite obj_load_reset by valid_ref
    | rewrite obj_mainloop_start by valid_ref
    | rewrite obj_sys_init by valid_ref ];
  simpl.

(** ** The create phase *)

Section StartCreate.
Variables (state : ref) (w : World).

Lemma startCreate_active :
  active (startCreate state w)
  = array_sort sortStates (active w ++ [new_record state w]).
Proof. unfold startCreate. by destruct (create (obj state w)). Qed.

Lemma startCreate_log :
  log (startCreate state w)
  = log w ++ create_events state w ++ [MainLoopStart state].
Proof.
  unfold startCreate, create_events.
  destruct (create (obj state w)); simpl; [|done].
  by rewrite <- app_assoc.
Qed.

Lemma startCreate_frame :
  game (startCreate state w) = game w
  /\ keys (startCreate state w) = keys w
  /\ keys_proto (startCreate state w) = keys_proto w
  /\ states (startCreate state w) = states w
  /\ _pending (startCreate state w) = _pending w
  /\ cfgs (startCreate state w) = cfgs w
  /\ literals (startCreate state w) = S (literals w)
  /\ length (objs (startCreate state w)) = length (objs w).
Proof.
  unfold startCreate.
  destruct (create (obj state w)); simpl; rewrite ?length_insert; done.
Qed.

Lemma startCreate_in_active :
  new_record state w ∈ active (startCreate state w).
Proof.
  rewrite startCreate_active, array_sort_perm. set_solver.
Qed.

Lemma startCreate_settings_active :
  settings_active (obj state (startCreate state w))
  = settings_active (obj state w).
Proof.
  destruct (decide (state < length (objs w))%nat) as [Hlt|Hge].
  - unfold startCreate, mainloop_start.
    destruct (create (obj state w)); obj_simpl; done.
  - unfold obj. rewrite !list_lookup_total_alt.
    rewrite !lookup_ge_None_2; [done|lia|].
    destruct startCreate_frame as (_&_&_&_&_&_&_&->). lia.
Qed.

Lemma startCreate_other r :
  r <> state -> obj r (startCreate state w) = obj r w.
Proof.
  intros Hne. unfold startCreate, mainloop_start, call.
  destruct (create (obj state w)).
  all: repeat first [ rewrite obj_modify_other by done
                    | progress autorewrite with store ].
  all: done.
Qed.
End StartCreate.

(** ** Starting a state *)

Opaque startCreate.

Lemma start_booted key state w :
  isBooted (game w) = true ->
  getState key w = StateObject state ->
  start key w =
    (let w := modify state (with_settings_active true) w in
     let w :=
       match init (obj state w) with
       | Some f => call state Init f w
       | None => w
       end in
     match preload (obj state w), sys_load (obj state w) with
     | Some f, Some _ =>
         let w := load_reset state w in
         let w := call state Preload f w in
         match sys_load (obj state w) with
         | Some l =>
             if Nat.eqb (list_size l) 0 then startCreate state w
             else emit (LoaderStart state) (emit (LoaderOnce state) w)
         | None => w
         end
     | _, _ => startCreate state w
     end,
     Return tt).
Proof.
  intros Hb Hs. unfold start. by rewrite Hb, isActive_false, Hs.
Qed.

(** What [start] does for the other keys, after boot. *)
Lemma start_not_a_state key w :
  isBooted (game w) = true ->
  (getState key w = Undefined -> start key w = (w, Return tt))
  /\ (forall v, getState key w = Other v -> start key w = (w, Throw TypeError)).
Proof.
  intros Hb. unfold start. rewrite Hb, isActive_false. simpl.
  split; [by intros ->|]. by intros v ->.
Qed.

Lemma start_returns key state w :
  getState key w = StateObject state -> snd (start key w) = Return tt.
Proof.
  intros Hs. destruct (isBooted (game w)) eqn:Hb.
  - by rewrite (start_booted key state w Hb Hs).
  - unfold start. by rewrite Hb.
Qed.

Lemma start_sync key state w :
  isBooted (game w) = true ->
  getState key w = StateObject state ->
  (state < length (objs w))%nat ->
  preload (obj state w) = None \/ preload (obj state w) = Some NOOP ->
  log (fst (start key w))
  = log w ++ init_events state w ++ preload_events state w
      ++ create_events state w ++ [MainLoopStart state]
  /\ active (fst (start key w))
     = array_sort sortStates (active w ++ [new_record state w])
  /\ settings_active (obj state (fst (start key w))) = true.
Proof.
  intros Hb Hs Hlt Hp. rewrite (start_booted key state w Hb Hs). cbn [fst].
  unfold init_events, preload_events, create_events. simpl.
  destruct (init (obj state w)) as [fi|] eqn:Hi;
    destruct (sys_load (obj state w)) as [l|] eqn:Hl;
    destruct Hp as [Hp|Hp].
  all: repeat (progress (obj_simpl; rewrite ?Hi, ?Hl, ?Hp)).
  all: rewrite ?startCreate_log, ?startCreate_active, ?startCreate_settings_active.
  all: unfold create_events, new_record, getStateIndex.
  all: repeat (progress (obj_simpl; rewrite ?Hi, ?Hl, ?Hp)).
  all: rewrite <- ?app_assoc; simpl.
  all: try done.
Qed.

Lemma start_async key state f l w :
  isBooted (game w) = true ->
  getState key w = StateObject state ->
  preload (obj state w) = Some f ->
  sys_load (obj state w) = Some l ->
  (1 <= loads_of f)%nat ->
  log (fst (start key w))
  = log w ++ init_events state w
      ++ [LoaderReset state; Call state Preload f;
          LoaderOnce state; LoaderStart state]
  /\ active (fst (start key w)) = active w
  /\ states (fst (start key w)) = states w
  /\ literals (fst (start key w)) = literals w
  /\ length (objs (fst (start key w))) = length (objs w)
  /\ settings_active (obj state (fst (start key w))) = true
  /\ create (obj state (fst (start key w))) = create (obj state w)
  /\ loadUpdate (obj state (fst (start key w))) = loadUpdate (obj state w).
Proof.
  intros Hb Hs Hp Hl Hf.
  assert (state < length (objs w))%nat as Hlt.
  { apply obj_allocated. intros Heq. by rewrite Heq in Hp. }
  rewrite (start_booted key state w Hb Hs). cbn [fst].
  unfold init_events. simpl.
  destruct (init (obj state w)) as [fi|] eqn:Hi.
  all: repeat (progress (obj_simpl; rewrite ?Hi, ?Hl, ?Hp)).
  all: destruct (Nat.eqb_spec (loads_of f) 0) as [Hz|_]; [lia|].
  all: repeat (progress (obj_simpl; rewrite ?Hi, ?Hl, ?Hp)).
  all: rewrite ?length_insert, <- ?app_assoc; simpl.
  all: done.
Qed.

Lemma loadComplete_spec state w :
  (state < length (objs w))%nat ->
  log (loadComplete state w)
  = log w ++ loadUpdate_events state w ++ create_events state w
      ++ [MainLoopStart state]
  /\ active (loadComplete state w)
     = array_sort sortStates (active w ++ [new_record state w])
  /\ settings_active (obj state (loadComplete state w))
     = settings_active (obj state w).
Proof.
  intros Hlt. unfold loadComplete, loadUpdate_events.
  destruct (loadUpdate (obj state w)) as [g|] eqn:Hg.
  all: rewrite startCreate_log, startCreate_active, startCreate_settings_active.
  all: unfold create_events, new_record, getStateIndex.
  all: repeat (progress obj_simpl).
  all: rewrite <- ?app_assoc; simpl.
  all: done.
Qed.

(** ** What the operations leave alone *)

Lemma startCreate_game state w : game (startCreate state w) = game w.
Proof. apply startCreate_frame. Qed.
Lemma startCreate_keys state w : keys (startCreate state w) = keys w.
Proof. apply startCreate_frame. Qed.
Lemma startCreate_keys_proto state w :
  keys_proto (startCreate state w) = keys_proto w.
Proof. apply startCreate_frame. Qed.
Lemma startCreate_states state w : states (startCreate state w) = states w.
Proof. apply startCreate_frame. Qed.
Lemma startCreate_pending state w : _pending (startCreate state w) = _pending w.
Proof. apply startCreate_frame. Qed.
Lemma startCreate_cfgs state w : cfgs (startCreate state w) = cfgs w.
Proof. apply startCreate_frame. Qed.
Lemma startCreate_literals state w :
  literals (startCreate state w) = S (literals w).
Proof. apply startCreate_frame. Qed.
Lemma startCreate_ascending state w : ascending (active (startCreate state w)).
Proof. rewrite startCreate_active. apply array_sort_ascending. Qed.

Create Rewrite HintDb frame.
#[local] Hint Rewrite startCreate_game startCreate_keys startCreate_keys_proto
  startCreate_states startCreate_pending startCreate_cfgs : frame.

Lemma start_frame key w :
  game (fst (start key w)) = game w
  /\ keys (fst (start key w)) = keys w
  /\ states (fst (start key w)) = states w
  /\ cfgs (fst (start key w)) = cfgs w
  /\ (isBooted (game w) = true -> _pending (fst (start key w)) = _pending w)
  /\ keeps_sorted w (fst (start key w)).
Proof.
  unfold keeps_sorted.
  destruct (isBooted (game w)) eqn:Hb.
  2: { unfold start. rewrite Hb. simpl. repeat split; try done. by left. }
  destruct (getState key w) as [|state|v] eqn:Hs.
  - rewrite (proj1 (start_not_a_state key w Hb) Hs). simpl.
    repeat split; try done. by left.
  - rewrite (start_booted key state w Hb Hs). cbn [fst].
    repeat case_match; autorewrite with frame; simpl;
      repeat split; try done;
      first [ by left | right; apply startCreate_ascending ].
  - rewrite (proj2 (start_not_a_state key w Hb) v Hs). simpl.
    repeat split; try done. by left.
Qed.

Lemma start_keys_proto key w : keys_proto (fst (start key w)) = keys_proto w.
Proof.
  destruct (isBooted (game w)) eqn:Hb.
  2: { unfold start. by rewrite Hb. }
  destruct (getState key w) as [|state|v] eqn:Hs.
  - by rewrite (proj1 (start_not_a_state key w Hb) Hs).
  - rewrite (start_booted key state w Hb Hs). cbn [fst].
    repeat case_match; autorewrite with frame; done.
  - by rewrite (proj2 (start_not_a_state key w Hb) v Hs).
Qed.

Lemma loadComplete_ascending state w :
  ascending (active (loadComplete state w)).
Proof. unfold loadComplete. apply startCreate_ascending. Qed.

Lemma pause_keeps_sorted key w : keeps_sorted w (fst (pause key w)).
Proof.
  unfold pause, keeps_sorted.
  repeat case_match; simpl; try (by left).
  right. apply array_sort_ascending.
Qed.

Lemma adapted_frame key stateConfig w :
  let w' := snd (adapted key stateConfig w) in
  game w' = game w /\ keys w' = keys w /\ states w' = states w
  /\ active w' = active w /\ _pending w' = _pending w
  /\ cfgs w'
     = match stateConfig with
       | SrcObject c => <[c := with_cfg_key key (cfg c w)]> (cfgs w)
       | _ => cfgs w
       end.
Proof.
  destruct stateConfig as [r|c|f]; simpl;
    unfold createStateFromInstance, createStateFromObject,
      createStateFromFunction, frame_buffer_if_webgl; simpl.
  - destruct (renderType (game w)); done.
  - destruct (renderType (game w)); done.
  - destruct (instance_of_State f); simpl;
      unfold createStateFromInstance, frame_buffer_if_webgl; simpl;
      destruct (renderType (game w)); done.
Qed.

(** ** Reading and writing [this.keys] *)

Lemma Object_prototype_get_not_State name state :
  Object_prototype_get name <> StateObject state.
Proof. unfold Object_prototype_get. by case_decide. Qed.

(** A read yields a State for an own key, and for '__proto__' once a State
    is the prototype; nowhere else. *)
Lemma getState_StateObject key state w :
  getState key w = StateObject state
  <-> keys w !! key = Some state
      \/ (keys w !! key = None /\ key = "__proto__"%string
          /\ keys_proto w = Some state).
Proof.
  unfold getState. destruct (keys w !! key) as [r|].
  { split; [intros [= ->]; by left|]. by intros [[= ->]|(? & _)]. }
  pose proof (Object_prototype_get_not_State key state) as Hno.
  destruct (keys_proto w) as [p|]; repeat case_match; subst;
    (split; [intros Heq; try done; injection Heq as ->; right; done
            |intros [?|(_ & ? & Hp)]; try done; congruence]).
Qed.

Lemma getState_own key state w :
  keys w !! key = Some state -> getState key w = StateObject state.
Proof. intros H. apply getState_StateObject. by left. Qed.

Lemma hasOwnProperty_inherited w :
  keys w !! "hasOwnProperty"%string = None ->
  getState "hasOwnProperty" w = Other (ObjectMethod "hasOwnProperty").
Proof.
  intros Hown. unfold getState. rewrite Hown.
  destruct (keys_proto w) as [p|]; reflexivity.
Qed.

Lemma keys_hasOwnProperty_spec key w :
  keys_hasOwnProperty key w
  = match keys w !! "hasOwnProperty"%string with
    | Some _ => Throw TypeError
    | None => Return (bool_decide (is_Some (keys w !! key)))
    end.
Proof.
  unfold keys_hasOwnProperty.
  destruct (keys w !! "hasOwnProperty"%string) as [r|] eqn:Hown.
  - by rewrite (getState_own _ r).
  - by rewrite hasOwnProperty_inherited.
Qed.

(** [getKey] returns the resolved key when it is no own key of the map;
    it throws the duplicate-key error when it is one, and a TypeError, in
    either case, once a State is registered as 'hasOwnProperty'. *)
Lemma getKey_spec key stateConfig w :
  getKey key stateConfig w
  = match keys w !! "hasOwnProperty"%string with
    | Some _ => Throw TypeError
    | None =>
        match keys w !! effective_key key stateConfig w with
        | Some _ => Throw (DuplicateKey (effective_key key stateConfig w))
        | None => Return (effective_key key stateConfig w)
        end
    end.
Proof.
  unfold getKey. rewrite keys_hasOwnProperty_spec.
  destruct (keys w !! "hasOwnProperty"%string); [done|].
  by destruct (keys w !! effective_key key stateConfig w).
Qed.

Lemma getKey_cases key stateConfig w :
  (exists e, getKey key stateConfig w = Throw e)
  \/ (getKey key stateConfig w = Return (effective_key key stateConfig w)
      /\ keys w !! effective_key key stateConfig w = None
      /\ keys w !! "hasOwnProperty"%string = None).
Proof.
  rewrite getKey_spec.
  destruct (keys w !! "hasOwnProperty"%string); [left; by eexists|].
  destruct (keys w !! effective_key key stateConfig w);
    [left; by eexists|by right].
Qed.

Lemma getKey_returns key stateConfig w :
  keys w !! "hasOwnProperty"%string = None ->
  keys w !! effective_key key stateConfig w = None ->
  getKey key stateConfig w = Return (effective_key key stateConfig w).
Proof. intros Hown Hfree. by rewrite getKey_spec, Hown, Hfree. Qed.

Lemma keys_put_frame k n w :
  game (keys_put k n w) = game w /\ states (keys_put k n w) = states w
  /\ active (keys_put k n w) = active w
  /\ _pending (keys_put k n w) = _pending w
  /\ literals (keys_put k n w) = literals w
  /\ objs (keys_put k n w) = objs w /\ cfgs (keys_put k n w) = cfgs w
  /\ log (keys_put k n w) = log w.
Proof. unfold keys_put. by case_decide. Qed.

(** After [this.keys[k] = n], for a [k] that was no own key, a read of [k]
    yields [n]. *)
Lemma getState_keys_put k n w :
  keys w !! k = None -> getState k (keys_put k n w) = StateObject n.
Proof.
  intros Hfree. apply getState_StateObject. unfold keys_put.
  case_decide as Hk; simpl.
  - right. by subst k.
  - left. apply lookup_insert_eq.
Qed.

(** ** add after boot *)

Lemma add_rejected key stateConfig autoStart w e :
  isBooted (game w) = true ->
  getKey key stateConfig w = Throw e ->
  add key stateConfig autoStart w = (w, Throw e).
Proof. intros Hb Hget. unfold add. by rewrite Hb, Hget. Qed.

Lemma adapted_keys_proto key stateConfig w :
  keys_proto (snd (adapted key stateConfig w)) = keys_proto w.
Proof.
  destruct stateConfig as [r|c|f]; simpl;
    unfold createStateFromInstance, createStateFromObject,
      createStateFromFunction, frame_buffer_if_webgl; simpl.
  - destruct (renderType (game w)); done.
  - destruct (renderType (game w)); done.
  - destruct (instance_of_State f); simpl;
      unfold createStateFromInstance, frame_buffer_if_webgl; simpl;
      destruct (renderType (game w)); done.
Qed.

Lemma add_booted key stateConfig autoStart w :
  isBooted (game w) = true ->
  getKey key stateConfig w = Return (effective_key key stateConfig w) ->
  let k := effective_key key stateConfig w in
  let newState := fst (adapted k stateConfig w) in
  let w1 := snd (adapted k stateConfig w) in
  let w2 := set_states (states w1 ++ [newState]) (keys_put k newState w1) in
  add key stateConfig autoStart w
  = (if default false autoStart || settings_active (obj newState w2)
     then fst (start k w2) else w2,
     Return (Some newState)).
Proof.
  intros Hb Hget. unfold add. rewrite Hb, Hget. simpl.
  assert (keys w !! effective_key key stateConfig w = None) as Hfree.
  { destruct (getKey_cases key stateConfig w) as [[e He]|(_ & H & _)];
      [congruence|done]. }
  fold (adapted (effective_key key stateConfig w) stateConfig w).
  pose proof (adapted_frame (effective_key key stateConfig w) stateConfig w)
    as (Hg & Hks & _).
  destruct (adapted (effective_key key stateConfig w) stateConfig w)
    as [newState w1] eqn:Had.
  simpl in *.
  destruct (keys_put_frame (effective_key key stateConfig w) newState w1)
    as (Hpg & Hps & _).
  rewrite Hpg, Hps, Hg, Hb.
  set (w2 := set_states _ _).
  destruct (_ || _); [|done].
  assert (snd (start (effective_key key stateConfig w) w2) = Return tt) as Hret.
  { apply (start_returns _ newState).
    change (getState (effective_key key stateConfig w) w2)
      with (getState (effective_key key stateConfig w)
              (keys_put (effective_key key stateConfig w) newState w1)).
    apply getState_keys_put. by rewrite Hks. }
  destruct (start (effective_key key stateConfig w) w2) as [w3 out].
  simpl in *. by subst out.
Qed.

Lemma adapted_ref key stateConfig w :
  fst (adapted key stateConfig w)
  = match stateConfig with
    | SrcInstance r => r
    | _ => length (objs w)
    end.
Proof.
  destruct stateConfig as [r|c|f]; simpl; try done.
  unfold createStateFromFunction. simpl. by destruct (instance_of_State f).
Qed.

Lemma add_booted_fields key stateConfig autoStart w :
  isBooted (game w) = true ->
  getKey key stateConfig w = Return (effective_key key stateConfig w) ->
  let k := effective_key key stateConfig w in
  let newState := fst (adapted k stateConfig w) in
  let w' := fst (add key stateConfig autoStart w) in
  snd (add key stateConfig autoStart w) = Return (Some newState)
  /\ keys w' = keys (keys_put k newState w)
  /\ keys_proto w' = keys_proto (keys_put k newState w)
  /\ states w' = states w ++ [newState]
  /\ cfgs w' = cfgs (snd (adapted k stateConfig w))
  /\ _pending w' = _pending w
  /\ game w' = game w
  /\ keeps_sorted w w'.
Proof.
  intros Hb Hget k newState w'. subst w'.
  rewrite (add_booted key stateConfig autoStart w Hb Hget).
  fold k newState.
  destruct (adapted_frame k stateConfig w) as (Hg & Hks & Hst & Hac & Hpe & Hcf).
  pose proof (adapted_keys_proto k stateConfig w) as Hkp.
  set (w1 := snd (adapted k stateConfig w)) in *.
  set (w2 := set_states _ _).
  assert (keys w2 = keys (keys_put k newState w)
          /\ keys_proto w2 = keys_proto (keys_put k newState w)
          /\ game w2 = game w /\ cfgs w2 = cfgs w1
          /\ _pending w2 = _pending w /\ active w2 = active w
          /\ states w2 = states w ++ [newState])
    as (Hk2 & Hkp2 & Hg2 & Hc2 & Hp2 & Ha2 & Hs2).
  { unfold w2, keys_put. case_decide; simpl; rewrite ?Hks, ?Hkp, ?Hst; done. }
  assert (isBooted (game w2) = true) as Hb2 by (by rewrite Hg2).
  destruct (start_frame k w2) as (Sg & Sk & Ss & Sc & Sp & Sa).
  pose proof (start_keys_proto k w2) as Skp.
  split; [done|].
  destruct (default false autoStart || settings_active (obj newState w2));
    cbn [fst].
  - rewrite Sk, Skp, Ss, Sc, (Sp Hb2), Sg.
    repeat split; try done.
    destruct Sa as [Sa|Sa]; [left|by right]. by rewrite Sa.
  - repeat split; try done. by left.
Qed.

Lemma add_booted_queue key stateConfig autoStart w :
  isBooted (game w) = true ->
  _pending (fst (add key stateConfig autoStart w)) = _pending w
  /\ game (fst (add key stateConfig autoStart w)) = game w.
Proof.
  intros Hb.
  destruct (getKey_cases key stateConfig w) as [[e Hget]|(Hget & _)].
  - by rewrite (add_rejected key stateConfig autoStart w e Hb Hget).
  - destruct (add_booted_fields key stateConfig autoStart w Hb Hget)
      as (_ & _ & _ & _ & _ & Hp & Hg & _). done.
Qed.

Lemma add_keeps_sorted key stateConfig autoStart w :
  keeps_sorted w (fst (add key stateConfig autoStart w)).
Proof.
  destruct (isBooted (game w)) eqn:Hb.
  - destruct (getKey_cases key stateConfig w) as [[e Hget]|(Hget & _)].
    + rewrite (add_rejected key stateConfig autoStart w e Hb Hget). by left.
    + apply (add_booted_fields key stateConfig autoStart w Hb Hget).
  - unfold add. rewrite Hb. by left.
Qed.

(** ** boot *)

Lemma boot_loop_replay fuel : forall i w,
  isBooted (game w) = true ->
  (length (_pending w) - i < fuel)%nat ->
  boot_loop fuel i w = Some (clear_after (replay (drop i (_pending w)) w)).
Proof.
  induction fuel as [|fuel IH]; intros i w Hb Hfuel; [lia|].
  simpl. destruct (_pending w !! i) as [entry|] eqn:Hi.
  - rewrite (drop_S _ _ _ Hi). simpl.
    pose proof (add_booted_queue (p_key entry) (p_state entry)
                  (Some (p_autoStart entry)) w Hb) as [Hp Hg].
    destruct (add (p_key entry) (p_state entry) (Some (p_autoStart entry)) w)
      as [w' [r|e]]; simpl in *; [|done].
    rewrite <- Hp. apply IH.
    + by rewrite Hg.
    + apply lookup_lt_Some in Hi. rewrite Hp. lia.
  - apply lookup_ge_None in Hi. by rewrite drop_ge.
Qed.

Lemma replay_queue l : forall w,
  isBooted (game w) = true ->
  _pending (fst (replay l w)) = _pending w
  /\ game (fst (replay l w)) = game w.
Proof.
  induction l as [|entry l IH]; intros w Hb; simpl; [done|].
  pose proof (add_booted_queue (p_key entry) (p_state entry)
                (Some (p_autoStart entry)) w Hb) as [Hp Hg].
  destruct (add (p_key entry) (p_state entry) (Some (p_autoStart entry)) w)
    as [w' [r|e]]; simpl in *; [|done].
  destruct (IH w') as [Hp' Hg']; [by rewrite Hg|].
  by rewrite Hp', Hg', Hp, Hg.
Qed.

(** ** The key of a State object *)

Lemma settings_key_modify r st f w :
  (forall s, settings_key (f s) = settings_key s) ->
  settings_key (obj r (modify st f w)) = settings_key (obj r w).
Proof.
  intros Hf. destruct (decide (r = st)) as [->|Hne].
  - destruct (decide (st < length (objs w))%nat) as [Hlt|Hge].
    + by rewrite obj_modify_same.
    + unfold modify. by rewrite list_insert_ge by lia.
  - by rewrite obj_modify_other.
Qed.

Lemma settings_key_call r st h f w :
  settings_key (obj r (call st h f w)) = settings_key (obj r w).
Proof. unfold call. by rewrite settings_key_modify. Qed.

Lemma settings_key_load_reset r st w :
  settings_key (obj r (load_reset st w)) = settings_key (obj r w).
Proof. unfold load_reset. by rewrite settings_key_modify. Qed.

Lemma settings_key_mainloop_start r st w :
  settings_key (obj r (mainloop_start st w)) = settings_key (obj r w).
Proof. unfold mainloop_start. by rewrite settings_key_modify. Qed.

Lemma settings_key_sys_init r st w :
  settings_key (obj r (sys_init st w)) = settings_key (obj r w).
Proof. unfold sys_init. by rewrite settings_key_modify. Qed.

Transparent startCreate.

Lemma settings_key_startCreate r st w :
  settings_key (obj r (startCreate st w)) = settings_key (obj r w).
Proof.
  unfold startCreate.
  rewrite settings_key_mainloop_start, settings_key_modify by done.
  autorewrite with store.
  destruct (create (obj st w)); [apply settings_key_call | done].
Qed.

Opaque startCreate.

Lemma settings_key_start r key w :
  settings_key (obj r (fst (start key w))) = settings_key (obj r w).
Proof.
  unfold start.
  repeat case_match; cbn [fst];
    repeat first
      [ progress autorewrite with store
      | rewrite settings_key_startCreate
      | rewrite settings_key_call
      | rewrite settings_key_load_reset
      | rewrite settings_key_modify by done ];
    done.
Qed.

Lemma settings_key_frame_buffer r st w :
  settings_key (obj r (frame_buffer_if_webgl st w)) = settings_key (obj r w).
Proof.
  unfold frame_buffer_if_webgl, createStateFrameBuffer.
  destruct (renderType (game w)); [done|].
  rewrite settings_key_modify by done. autorewrite with store.
  by rewrite settings_key_modify.
Qed.

Lemma settings_key_createStateFromObject key c w :
  settings_key (obj (length (objs w)) (snd (createStateFromObject key c w)))
  = default ""%string (cfg_key (cfg c w)).
Proof.
  unfold createStateFromObject, setupCallbacks. simpl.
  rewrite settings_key_modify by done.
  rewrite settings_key_frame_buffer, settings_key_sys_init.
  rewrite settings_key_modify by done.
  unfold obj. simpl. by rewrite list_lookup_total_middle.
Qed.

(** ** Three states *)

Lemma three_startCreate w r0 r1 r2 order :
  states w = [r0; r1; r2] ->
  NoDup [r0; r1; r2] ->
  active w = [] ->
  order ≡ₚ [r0; r1; r2] ->
  map (fun a => (ar_index a, ar_state a))
    (active (fold_left (fun w r => startCreate r w) order w))
  = [(0, r0); (1, r1); (2, r2)].
Proof.
  intros Hst Hnd Hact Hperm.
  assert (Nat.eqb r0 r1 = false /\ Nat.eqb r0 r2 = false
          /\ Nat.eqb r1 r2 = false) as (E01 & E02 & E12).
  { rewrite !Nat.eqb_neq. apply NoDup_cons in Hnd as [H0 Hnd].
    apply NoDup_cons in Hnd as [H1 _].
    apply not_elem_of_cons in H0 as [? H0].
    apply not_elem_of_cons in H0 as [? _].
    apply not_elem_of_cons in H1 as [? _]. done. }
  apply Permutation_sym, permutations_Permutation in Hperm. simpl in Hperm.
  repeat (apply elem_of_cons in Hperm as [->|Hperm]);
    [..|by apply elem_of_nil in Hperm].
  all: simpl; rewrite !startCreate_active.
  all: unfold new_record, getStateIndex, indexOf.
  all: rewrite !startCreate_states, !startCreate_literals, Hst, Hact.
  all: simpl; rewrite ?Nat.eqb_refl, ?E01, ?E02, ?E12; reflexivity.
Qed.


(** ** step *)

Lemma step_loop timestamp l w :
  let w' :=
    fold_left
      (fun w a =>
         let state := ar_state a in
         if sys_mainloop_running (obj state w)
         then emit (MainLoopStep state timestamp) w
         else w) l w in
  log w' = log w
           ++ map (fun a => MainLoopStep (ar_state a) timestamp)
                (List.filter
                   (fun a => sys_mainloop_running (obj (ar_state a) w)) l)
  /\ objs w' = objs w /\ active w' = active w /\ keys w' = keys w
  /\ states w' = states w /\ _pending w' = _pending w
  /\ literals w' = literals w /\ cfgs w' = cfgs w /\ game w' = game w
  /\ keys_proto w' = keys_proto w.
Proof.
  revert w. induction l as [|a l IH]; intros w; simpl.
  - by rewrite app_nil_r.
  - destruct (sys_mainloop_running (obj (ar_state a) w)) eqn:Hr.
    + destruct (IH (emit (MainLoopStep (ar_state a) timestamp) w))
        as (Hlog & Hrest).
      split; [|exact Hrest].
      etransitivity; [exact Hlog|]. simpl. by rewrite <- app_assoc.
    + apply IH.
Qed.

Lemma running_records_ascending w :
  ascending (active w) -> ascending (running_records w).
Proof.
  unfold running_records, ascending.
  induction 1 as [|a l Hl IH Ha]; simpl; [constructor|].
  destruct (sys_mainloop_running (obj (ar_state a) w)); [|exact IH].
  constructor; [exact IH|].
  rewrite Forall_forall in Ha |- *. intros b Hb.
  apply Ha. apply list_elem_of_In in Hb. apply filter_In in Hb as [Hb _].
  by apply list_elem_of_In.
Qed.


(** ** Three keys *)

Lemma three_keys_in_any_order order :
  order ≡ₚ ["A"; "B"; "C"]%string ->
  map (fun a => (ar_index a, ar_state a))
    (active (fold_left (fun w key => fst (start key w)) order ABC_added))
  = [(0, 0%nat); (1, 1%nat); (2, 2%nat)].
Proof.
  intros Hperm.
  apply Permutation_sym, permutations_Permutation in Hperm. simpl in Hperm.
  repeat (apply elem_of_cons in Hperm as [->|Hperm]);
    [..|by apply elem_of_nil in Hperm].
  all: vm_compute; reflexivity.
Qed.


(** ** Reachable worlds *)

Lemma well_formed_mono stateConfig w w' :
  (length (objs w) <= length (objs w'))%nat ->
  (length (cfgs w) <= length (cfgs w'))%nat ->
  well_formed stateConfig w -> well_formed stateConfig w'.
Proof. destruct stateConfig; simpl; lia. Qed.

Lemma startCreate_length state w :
  length (objs (startCreate state w)) = length (objs w).
Proof. apply startCreate_frame. Qed.

Lemma start_length key w :
  length (objs (fst (start key w))) = length (objs w).
Proof.
  unfold start.
  repeat case_match; cbn [fst]; rewrite ?startCreate_length;
    unfold call, load_reset, modify; simpl; rewrite ?length_insert; done.
Qed.

Lemma frame_buffer_length st w :
  length (objs (frame_buffer_if_webgl st w)) = length (objs w).
Proof.
  unfold frame_buffer_if_webgl, createStateFrameBuffer, modify.
  destruct (renderType (game w)); simpl; rewrite ?length_insert; done.
Qed.

Lemma adapted_length key stateConfig w :
  length (objs (snd (adapted key stateConfig w)))
  = match stateConfig with
    | SrcInstance _ => length (objs w)
    | _ => S (length (objs w))
    end.
Proof.
  destruct stateConfig as [r|c|f]; simpl;
    unfold createStateFromInstance, createStateFromObject,
      createStateFromFunction, setupCallbacks; simpl.
  - rewrite frame_buffer_length. unfold sys_init, modify. simpl.
    by rewrite !length_insert.
  - unfold modify at 1. simpl. rewrite length_insert, frame_buffer_length.
    unfold sys_init, modify. simpl.
    rewrite !length_insert, length_app. simpl. lia.
  - destruct (instance_of_State f); simpl;
      unfold createStateFromInstance, setupCallbacks; simpl.
    + rewrite frame_buffer_length. unfold sys_init, modify. simpl.
      rewrite !length_insert, length_app. simpl. lia.
    + unfold modify at 1. simpl. rewrite length_insert, frame_buffer_length.
      unfold sys_init, modify. simpl.
      rewrite !length_insert, length_app. simpl. lia.
Qed.

(** An operation that leaves the registry and the queue alone and loses no
    object keeps the invariant. *)
Lemma invariant_frame w w' :
  game w' = game w -> keys w' = keys w -> keys_proto w' = keys_proto w ->
  length (objs w') = length (objs w) -> length (cfgs w') = length (cfgs w) ->
  (forall entry, entry ∈ _pending w' ->
     exists entry', entry' ∈ _pending w /\ p_state entry' = p_state entry) ->
  invariant w -> invariant w'.
Proof.
  intros Hg Hk Hkp Ho Hc Hpe [Hu Hr Hpr Hp]. split.
  - rewrite Hg, Hk, Hkp. exact Hu.
  - rewrite Hk, Ho. exact Hr.
  - rewrite Hkp, Ho. exact Hpr.
  - intros entry Hin. destruct (Hpe entry Hin) as (entry' & Hin' & <-).
    eapply well_formed_mono; [..|by apply Hp]; lia.
Qed.

Lemma add_invariant key stateConfig autoStart w :
  invariant w -> well_formed stateConfig w ->
  invariant (fst (add key stateConfig autoStart w)).
Proof.
  intros [Hu Hr Hpr Hp] Hwf.
  destruct (isBooted (game w)) eqn:Hb.
  - destruct (getKey_cases key stateConfig w) as [[e Hget]|(Hget & Hfree & _)].
    { rewrite (add_rejected key stateConfig autoStart w e Hb Hget).
      split; simpl; [rewrite Hb; discriminate|done..]. }
    destruct (add_booted_fields key stateConfig autoStart w Hb Hget)
      as (_ & Hkeys & Hproto & _ & Hcfgs & Hpend & Hgame & _).
    pose proof (adapted_frame (effective_key key stateConfig w) stateConfig w)
      as (_ & _ & _ & _ & _ & Hcf).
    pose proof (adapted_length (effective_key key stateConfig w) stateConfig w)
      as Hlen.
    pose proof (adapted_ref (effective_key key stateConfig w) stateConfig w)
      as Href.
    assert (length (objs (fst (add key stateConfig autoStart w)))
            = length (objs (snd (adapted (effective_key key stateConfig w)
                                   stateConfig w)))) as Hobjs.
    { rewrite (add_booted key stateConfig autoStart w Hb Hget). cbn [fst].
      destruct (_ || _); [rewrite start_length|]; simpl;
        by rewrite (proj1 (proj2 (proj2 (proj2 (proj2 (proj2
                      (keys_put_frame _ _ _))))))). }
    assert (length (cfgs (fst (add key stateConfig autoStart w)))
            = length (cfgs w)) as Hclen.
    { rewrite Hcfgs, Hcf. destruct stateConfig; rewrite ?length_insert; done. }
    assert (fst (adapted (effective_key key stateConfig w) stateConfig w)
            < length (objs (fst (add key stateConfig autoStart w))))%nat
      as Hnew.
    { rewrite Hobjs, Hlen, Href. destruct stateConfig; simpl in *; lia. }
    assert (length (objs w)
            <= length (objs (fst (add key stateConfig autoStart w))))%nat
      as Hgrow.
    { rewrite Hobjs, Hlen. destruct stateConfig; lia. }
    split.
    + rewrite Hgame, Hb. discriminate.
    + intros k state. rewrite Hkeys. unfold keys_put.
      case_decide; simpl.
      * intros Hs. apply Hr in Hs. lia.
      * destruct (decide (effective_key key stateConfig w = k)) as [Heq|Hne].
        -- subst k. rewrite lookup_insert_eq. by intros [= <-].
        -- rewrite lookup_insert_ne by done. intros Hs. apply Hr in Hs. lia.
    + intros state. rewrite Hproto. unfold keys_put.
      case_decide; simpl.
      * by intros [= <-].
      * intros Hs. apply Hpr in Hs. lia.
    + intros entry. rewrite Hpend. intros Hin.
      eapply well_formed_mono; [..|by apply Hp]; [done|].
      by rewrite Hclen.
  - unfold add. rewrite Hb. simpl. split; simpl.
    + intros _. by apply Hu.
    + exact Hr.
    + exact Hpr.
    + intros entry Hin. apply elem_of_app in Hin as [Hin|Hin].
      * by apply Hp.
      * apply list_elem_of_singleton in Hin. by subst.
Qed.

Lemma boot_loop_invariant fuel : forall i w w' out,
  invariant w -> boot_loop fuel i w = Some (w', out) -> invariant w'.
Proof.
  induction fuel as [|fuel IH]; intros i w w' out Hinv; simpl; [done|].
  destruct (_pending w !! i) as [entry|] eqn:Hi.
  - pose proof (add_invariant (p_key entry) (p_state entry)
                  (Some (p_autoStart entry)) w Hinv) as Hadd.
    destruct (add (p_key entry) (p_state entry) (Some (p_autoStart entry)) w)
      as [w1 [r|e]]; simpl in Hadd.
    + intros Hloop. eapply IH; [|exact Hloop]. apply Hadd.
      apply Hinv. by eapply list_elem_of_lookup_2.
    + intros [= <- <-]. apply Hadd, Hinv. by eapply list_elem_of_lookup_2.
  - intros [= <- <-]. destruct Hinv as [Hu Hr Hpr Hp]. split; simpl; try done.
    intros entry Hin. by apply elem_of_nil in Hin.
Qed.

Lemma step_frame timestamp w :
  objs (step timestamp w) = objs w
  /\ keys (step timestamp w) = keys w
  /\ _pending (step timestamp w) = _pending w
  /\ cfgs (step timestamp w) = cfgs w
  /\ game (step timestamp w) = game w.
Proof.
  destruct (step_loop timestamp (active w) w)
    as (_ & Ho & _ & Hk & _ & Hpe & _ & Hc & Hg & _).
  done.
Qed.

Lemma step_keys_proto timestamp w :
  keys_proto (step timestamp w) = keys_proto w.
Proof. apply (step_loop timestamp (active w) w). Qed.

Lemma pause_frame key w :
  game (fst (pause key w)) = game w
  /\ keys (fst (pause key w)) = keys w
  /\ keys_proto (fst (pause key w)) = keys_proto w
  /\ states (fst (pause key w)) = states w
  /\ _pending (fst (pause key w)) = _pending w
  /\ cfgs (fst (pause key w)) = cfgs w
  /\ length (objs (fst (pause key w))) = length (objs w).
Proof.
  unfold pause. repeat case_match; simpl; rewrite ?length_insert; done.
Qed.

Lemma loadComplete_frame state w :
  game (loadComplete state w) = game w
  /\ keys (loadComplete state w) = keys w
  /\ keys_proto (loadComplete state w) = keys_proto w
  /\ states (loadComplete state w) = states w
  /\ _pending (loadComplete state w) = _pending w
  /\ cfgs (loadComplete state w) = cfgs w
  /\ length (objs (loadComplete state w)) = length (objs w).
Proof.
  unfold loadComplete. autorewrite with frame. rewrite startCreate_length.
  destruct (loadUpdate (obj state w)); simpl; rewrite ?length_insert; done.
Qed.

Lemma reachable_invariant w : reachable w -> invariant w.
Proof.
  induction 1 as [g o c sc Hwf|w _ IH|fuel w w' out _ IH Hboot
                 |key sc auto w _ IH Hwf|key w _ IH|state w _ IH
                 |key w _ IH|ts w _ IH].
  - split; simpl; [done|done|done|].
    destruct sc as [|s|l]; simpl in *; intros entry Hin.
    + by apply elem_of_nil in Hin.
    + apply list_elem_of_singleton in Hin. by subst.
    + apply elem_of_lookup_imap in Hin as (i & s & -> & Hs). simpl.
      rewrite Forall_forall in Hwf. apply Hwf. by eapply list_elem_of_lookup_2.
  - destruct IH as [Hu Hr Hpr Hp]. split; simpl; done.
  - by eapply boot_loop_invariant.
  - by apply add_invariant.
  - destruct (start_frame key w) as (Hg & Hk & _ & Hc & Hpe & _).
    apply (invariant_frame w); try done.
    + apply start_keys_proto.
    + apply start_length.
    + by rewrite Hc.
    + intros entry Hin.
      destruct (isBooted (game w)) eqn:Hb.
      * rewrite Hpe in Hin by done. by exists entry.
      * unfold start in Hin. rewrite Hb in Hin. simpl in Hin.
        apply list_elem_of_fmap in Hin as (entry' & -> & Hin').
        exists entry'. split; [done|]. by case_decide.
  - destruct (loadComplete_frame state w) as (Hg & Hk & Hkp & _ & Hpe & Hc & Ho).
    apply (invariant_frame w); try done.
    + by rewrite Hc.
    + intros entry. rewrite Hpe. intros Hin. by exists entry.
  - destruct (pause_frame key w) as (Hg & Hk & Hkp & _ & Hpe & Hc & Ho).
    apply (invariant_frame w); try done.
    + by rewrite Hc.
    + intros entry. rewrite Hpe. intros Hin. by exists entry.
  - destruct (step_frame ts w) as (Ho & Hk & Hpe & Hc & Hg).
    apply (invariant_frame w); try done.
    + apply step_keys_proto.
    + by rewrite Ho.
    + by rewrite Hc.
    + intros entry. rewrite Hpe. intros Hin. by exists entry.
Qed.

(** In a reachable world a registered state exists as an object and the
    host has booted: the premises of the statements on [start] below hold
    for every state the caller can have registered. *)
Lemma reachable_registered key state w :
  reachable w -> getState key w = StateObject state ->
  isBooted (game w) = true /\ (state < length (objs w))%nat.
Proof.
  intros Hre Hs. destruct (reachable_invariant w Hre) as [Hu Hr Hpr _].
  apply getState_StateObject in Hs.
  split; [|destruct Hs as [Hs|(_ & _ & Hs)]; [by eapply Hr|by apply Hpr]].
  destruct (isBooted (game w)); [done|].
  destruct Hu as [Hk Hkp]; [done|]. rewrite Hk, Hkp, lookup_empty in Hs.
  by destruct Hs as [?|(_ & _ & ?)].
Qed.

(** The scenarios used below are worlds the caller can bring about. *)
Lemma scenarios_reachable :
  reachable A_started /\ reachable ABC_added /\ reachable default_added
  /\ reachable keyed_record /\ reachable L_added
  /\ reachable (game_booted queued_twice).
Proof.
  assert (reachable three_records) as H3 by (by apply reach_new).
  assert (reachable A_added) as HA.
  { apply reach_add; [exact H3 | simpl; lia]. }
  split; [by apply reach_start|].
  split.
  { apply reach_add; [apply reach_add; [exact HA|] |]; vm_compute; lia. }
  split; [apply reach_add; [exact H3 | simpl; lia]|].
  split; [by apply reach_new|].
  split; [apply reach_add; [by apply reach_new | simpl; lia]|].
  apply reach_game_booted.
  apply reach_add; [apply reach_add; [apply reach_add; [by apply reach_new|]|]|];
    vm_compute; lia.
Qed.

(** ** pause *)

(** C1.  The claim asks that [pause(key)] on an Active state removes its
    record from the active list.  In the scenario [add('A', {});
    start('A')] the state registered as 'A' is Active (its record is in the
    active list and its active flag is set), and [pause('A')] returns with
    nothing changed: [getActiveStateIndex] compares the State objects of the
    records with the key, finds none, and [pause] skips its body. *)
Theorem pause_keeps_active_state :
  getState "A" A_started = StateObject 0%nat
  /\ settings_active (obj 0%nat A_started) = true
  /\ active A_started = [ {| ar_id := 0; ar_index := 0; ar_state := 0%nat |} ]
  /\ getActiveStateIndex (VString "A") A_started = -1
  /\ pause (VString "A") A_started = (A_started, Return tt).
Proof.
  split; [vm_compute; reflexivity|].
  split; [vm_compute; reflexivity|].
  split; [vm_compute; reflexivity|].
  split; [apply getActiveStateIndex_key | apply pause_key].
Qed.

(** ** start *)

(** C2.  The claim asks that a second [start(key)] on a started state does
    nothing.  In the scenario [add('A', {}); start('A'); start('A')] the
    second call runs the hooks again and leaves two records for the same
    State in the active list: [isActive] looks the State up in an array of
    [{index, state}] literals and never finds it. *)
Theorem start_twice_activates_twice :
  isActive "A" A_started = Return false
  /\ active (fst (start "A" A_started))
     = [ {| ar_id := 0; ar_index := 0; ar_state := 0%nat |};
         {| ar_id := 1; ar_index := 0; ar_state := 0%nat |} ]
  /\ log (fst (start "A" A_started))
     = log A_started
         ++ [ Call 0%nat Init NOOP; LoaderReset 0%nat; Call 0%nat Preload NOOP;
              Call 0%nat Create NOOP; MainLoopStart 0%nat ].
Proof. split; [|split]; vm_compute; reflexivity. Qed.

(** C8.  For a registered state with no preload hook (none at all, or the
    NOOP that registration from a record or a function installs),
    [start(key)] returns with the hooks run in the order init, create, with
    the record of the state in the active list and its active flag set; the
    loader is never started.  The first and third premise hold for every
    registered state of a reachable world ([reachable_registered]). *)
Theorem start_without_preload_is_synchronous key state w :
  isBooted (game w) = true ->
  getState key w = StateObject state ->
  (state < length (objs w))%nat ->
  preload (obj state w) = None \/ preload (obj state w) = Some NOOP ->
  let events :=
    init_events state w ++ preload_events state w
      ++ create_events state w ++ [MainLoopStart state] in
  log (fst (start key w)) = log w ++ events
  /\ ((LoaderOnce state ∉ events) /\ (LoaderStart state ∉ events))
  /\ active (fst (start key w))
     = array_sort sortStates (active w ++ [new_record state w])
  /\ in_active state (fst (start key w))
  /\ settings_active (obj state (fst (start key w))) = true
  /\ snd (start key w) = Return tt.
Proof.
  intros Hb Hs Hlt Hp events.
  destruct (start_sync key state w Hb Hs Hlt Hp) as (Hlog & Hact & Hset).
  split; [exact Hlog|].
  split; [|split; [exact Hact|split;
                     [|split; [exact Hset|by apply (start_returns _ state)]]]].
  - subst events. unfold init_events, preload_events, create_events.
    destruct (init (obj state w)), (preload (obj state w)),
      (sys_load (obj state w)), (create (obj state w)); simpl.
    all: split; intros Hin.
    all: repeat (apply elem_of_cons in Hin as [Hin|Hin]; [discriminate|]).
    all: by apply elem_of_nil in Hin.
  - exists (new_record state w). split; [|done].
    rewrite Hact, array_sort_perm, elem_of_app, list_elem_of_singleton. by right.
Qed.

Lemma start_without_preload_is_synchronous_witness :
  isBooted (game A_added) = true
  /\ getState "A" A_added = StateObject 0%nat
  /\ (0 < length (objs A_added))%nat
  /\ (preload (obj 0%nat A_added) = None
      \/ preload (obj 0%nat A_added) = Some NOOP)
  /\ in_active 0%nat (fst (start "A" A_added)).
Proof.
  assert (isBooted (game A_added) = true) as Hb by (vm_compute; reflexivity).
  assert (getState "A" A_added = StateObject 0%nat) as Hs
    by (vm_compute; reflexivity).
  assert (0 < length (objs A_added))%nat as Hlt by (vm_compute; lia).
  assert (preload (obj 0%nat A_added) = None
          \/ preload (obj 0%nat A_added) = Some NOOP) as Hp
    by (right; vm_compute; reflexivity).
  split; [exact Hb|]. split; [exact Hs|]. split; [exact Hlt|].
  split; [exact Hp|].
  exact (proj1 (proj2 (proj2 (proj2
    (start_without_preload_is_synchronous "A" 0%nat A_added Hb Hs Hlt Hp))))).
Defined.

(** C4.  For a registered state whose preload hook queues at least one
    loadable (so its loader exists) and that is not in the active list,
    [start(key)] returns with the loader started, a one-shot subscription
    placed and the active list as it was, the state absent from it;
    [loadComplete] for that state then runs loadUpdate exactly when the
    state has one, runs create, and puts the record of the state into the
    active list. *)
Theorem start_with_loading_defers_create key state f l w :
  isBooted (game w) = true ->
  getState key w = StateObject state ->
  preload (obj state w) = Some f ->
  sys_load (obj state w) = Some l ->
  (1 <= loads_of f)%nat ->
  ~ in_active state w ->
  (log (fst (start key w))
   = log w ++ init_events state w
       ++ [LoaderReset state; Call state Preload f;
           LoaderOnce state; LoaderStart state]
   /\ active (fst (start key w)) = active w
   /\ ~ in_active state (fst (start key w))
   /\ snd (start key w) = Return tt)
  /\ (log (loadComplete state (fst (start key w)))
      = log (fst (start key w)) ++ loadUpdate_events state w
          ++ create_events state w ++ [MainLoopStart state]
      /\ active (loadComplete state (fst (start key w)))
         = array_sort sortStates (active w ++ [new_record state w])
      /\ in_active state (loadComplete state (fst (start key w)))
      /\ settings_active (obj state (loadComplete state (fst (start key w))))
         = true).
Proof.
  intros Hb Hs Hp Hl Hf Hout.
  destruct (start_async key state f l w Hb Hs Hp Hl Hf)
    as (Hlog & Hact & Hsts & Hlit & Hlen & Hset & Hcr & Hlu).
  assert (state < length (objs (fst (start key w))))%nat as Hlt.
  { rewrite Hlen. apply obj_allocated. intros Heq. by rewrite Heq in Hp. }
  destruct (loadComplete_spec state (fst (start key w)) Hlt)
    as (Hlog2 & Hact2 & Hset2).
  assert (new_record state (fst (start key w)) = new_record state w) as Hrec.
  { unfold new_record, getStateIndex. by rewrite Hlit, Hsts. }
  split; [split; [done|split; [done|split]]|].
  - unfold in_active. by rewrite Hact.
  - by apply (start_returns _ state).
  - repeat split.
    + rewrite Hlog2. unfold loadUpdate_events, create_events.
      by rewrite Hlu, Hcr.
    + by rewrite Hact2, Hact, Hrec.
    + exists (new_record state w). split; [|done].
      rewrite Hact2, Hact, Hrec, array_sort_perm, elem_of_app,
        list_elem_of_singleton. by right.
    + by rewrite Hset2.
Qed.

Lemma start_with_loading_defers_create_witness :
  isBooted (game L_added) = true
  /\ getState "L" L_added = StateObject 0%nat
  /\ preload (obj 0%nat L_added) = Some (Fn 2)
  /\ sys_load (obj 0%nat L_added) = Some {| list_size := 0 |}
  /\ (1 <= loads_of (Fn 2))%nat
  /\ ~ in_active 0%nat L_added
  /\ ~ in_active 0%nat (fst (start "L" L_added))
  /\ in_active 0%nat (loadComplete 0%nat (fst (start "L" L_added))).
Proof.
  assert (isBooted (game L_added) = true) as Hb by (vm_compute; reflexivity).
  assert (getState "L" L_added = StateObject 0%nat) as Hs
    by (vm_compute; reflexivity).
  assert (preload (obj 0%nat L_added) = Some (Fn 2)) as Hp
    by (vm_compute; reflexivity).
  assert (sys_load (obj 0%nat L_added) = Some {| list_size := 0 |}) as Hl
    by (vm_compute; reflexivity).
  assert (1 <= loads_of (Fn 2))%nat as Hf by (simpl; lia).
  assert (~ in_active 0%nat L_added) as Hout.
  { intros (a & Ha & _). vm_compute in Ha. inversion Ha. }
  pose proof (start_with_loading_defers_create
                "L" 0%nat (Fn 2) _ L_added Hb Hs Hp Hl Hf Hout) as H.
  split; [exact Hb|]. split; [exact Hs|]. split; [exact Hp|].
  split; [exact Hl|]. split; [exact Hf|]. split; [exact Hout|].
  split; [exact (proj1 (proj2 (proj2 (proj1 H))))|].
  exact (proj1 (proj2 (proj2 (proj2 H)))).
Defined.

(** ** add *)

(** C3.  The claim asks that a post-boot [add] whose resolved key is
    already registered fails with the duplicate-key error and changes
    nothing.  The duplicate check of [getKey] is
    [this.keys.hasOwnProperty(key)] on a plain object, and it misses two
    cases.  After [add('__proto__', {})], which made the new State the
    prototype of [this.keys] and created no own property, a second
    [add('__proto__', {})] is accepted: it returns a second State, the state
    list holds both, and the key now yields the second.  After
    [add('hasOwnProperty', {})] the check finds that State where it looks
    for the method, so the duplicate [add] fails with a TypeError and not
    with the duplicate-key error. *)
Theorem add_duplicate_key_accepted :
  (getState "__proto__" proto_added = StateObject 0%nat
   /\ snd (add (Some "__proto__"%string) (SrcObject 1%nat) None proto_added)
      = Return (Some 1%nat)
   /\ states (fst (add (Some "__proto__"%string) (SrcObject 1%nat) None
                     proto_added))
      = [0%nat; 1%nat]
   /\ getState "__proto__"
        (fst (add (Some "__proto__"%string) (SrcObject 1%nat) None
                proto_added))
      = StateObject 1%nat)
  /\ (getState "hasOwnProperty" hasOwnProperty_added = StateObject 0%nat
      /\ add (Some "hasOwnProperty"%string) (SrcObject 1%nat) None
           hasOwnProperty_added
         = (hasOwnProperty_added, Throw TypeError)).
Proof.
  split; [split; [|split; [|split]]|split]; vm_compute; reflexivity.
Qed.

(** ** step *)

(** C7.  [step(timestamp)] changes nothing but the log, to which it adds one
    step signal, carrying [timestamp], for each record of the active list
    whose main loop reports running, in the order of the active list: in
    ascending index order when the list is sorted, as [startCreate] and
    [pause] leave it.  So a driver receives the signal exactly when its
    state has a record in the active list and its running flag is set. *)
Theorem step_forwards_to_running_active_states timestamp w :
  log (step timestamp w)
  = log w ++ map (fun a => MainLoopStep (ar_state a) timestamp)
               (running_records w)
  /\ (ascending (active w) -> ascending (running_records w))
  /\ (objs (step timestamp w) = objs w
      /\ active (step timestamp w) = active w
      /\ keys (step timestamp w) = keys w
      /\ states (step timestamp w) = states w)
  /\ forall state,
       MainLoopStep state timestamp
         ∈ map (fun a => MainLoopStep (ar_state a) timestamp)
             (running_records w)
       <-> in_active state w /\ sys_mainloop_running (obj state w) = true.
Proof.
  destruct (step_loop timestamp (active w) w)
    as (Hlog & Ho & Ha & Hk & Hs & _).
  split; [exact Hlog|]. split; [apply running_records_ascending|].
  split; [done|].
  intros state. unfold running_records, in_active.
  rewrite list_elem_of_In, in_map_iff. split.
  - intros (a & Heq & Hin). apply filter_In in Hin as [Hin Hrun].
    inversion Heq; subst. split; [|done].
    exists a. by rewrite list_elem_of_In.
  - intros [(a & Hin & <-) Hrun]. exists a. split; [done|].
    apply filter_In. by rewrite <- list_elem_of_In.
Qed.

Lemma step_forwards_to_running_active_states_witness :
  ascending (active A_started)
  /\ ascending (running_records A_started)
  /\ log (step 16 A_started) = log A_started ++ [MainLoopStep 0%nat 16].
Proof.
  assert (ascending (active A_started)) as Hsorted.
  { vm_compute. repeat constructor. }
  pose proof (step_forwards_to_running_active_states 16 A_started)
    as (Hlog & Hasc & _).
  split; [exact Hsorted|]. split; [exact (Hasc Hsorted)|].
  etransitivity; [exact Hlog|]. vm_compute. reflexivity.
Defined.

(** ** The order of the active list *)

(** C5.  Every operation that changes the active list leaves it sorted by
    ascending registration index: [startCreate] and [loadComplete] always
    end on a sorted list, and [pause], [start] and [add] either leave the
    list as it was or end on a sorted list.  For three states registered
    with indices 0, 1, 2 and an empty active list, running the create phase
    for the three in any order yields the records in the order 0, 1, 2; so
    does [start] on the keys 'A', 'B', 'C' (registered in this order from
    empty records) taken in any order. *)
Theorem active_list_sorted_after_mutation :
  (forall state w, ascending (active (startCreate state w)))
  /\ (forall state w, ascending (active (loadComplete state w)))
  /\ (forall key w, keeps_sorted w (fst (pause key w)))
  /\ (forall key w, keeps_sorted w (fst (start key w)))
  /\ (forall key stateConfig autoStart w,
        keeps_sorted w (fst (add key stateConfig autoStart w)))
  /\ (forall w r0 r1 r2 order,
        states w = [r0; r1; r2] ->
        NoDup [r0; r1; r2] ->
        active w = [] ->
        order ≡ₚ [r0; r1; r2] ->
        map (fun a => (ar_index a, ar_state a))
          (active (fold_left (fun w r => startCreate r w) order w))
        = [(0, r0); (1, r1); (2, r2)])
  /\ (forall order,
        order ≡ₚ ["A"; "B"; "C"]%string ->
        map (fun a => (ar_index a, ar_state a))
          (active (fold_left (fun w key => fst (start key w)) order
                     ABC_added))
        = [(0, 0%nat); (1, 1%nat); (2, 2%nat)]).
Proof.
  split; [exact startCreate_ascending|].
  split; [exact loadComplete_ascending|].
  split; [exact pause_keeps_sorted|].
  split; [intros key w; apply start_frame|].
  split; [exact add_keeps_sorted|].
  split; [exact three_startCreate | exact three_keys_in_any_order].
Qed.

Lemma active_list_sorted_after_mutation_witness :
  (states ABC_added = [0; 1; 2]%nat
   /\ NoDup [0; 1; 2]%nat
   /\ active ABC_added = []
   /\ [2; 0; 1]%nat ≡ₚ [0; 1; 2]%nat
   /\ map (fun a => (ar_index a, ar_state a))
        (active (startCreate 1%nat
                   (startCreate 0%nat (startCreate 2%nat ABC_added))))
      = [(0, 0%nat); (1, 1%nat); (2, 2%nat)])
  /\ (["C"; "A"; "B"]%string ≡ₚ ["A"; "B"; "C"]%string
      /\ map (fun a => (ar_index a, ar_state a))
           (active
              (fst (start "B"
                      (fst (start "A" (fst (start "C" ABC_added)))))))
         = [(0, 0%nat); (1, 1%nat); (2, 2%nat)]).
Proof.
  assert (states ABC_added = [0; 1; 2]%nat) as Hst by (vm_compute; reflexivity).
  assert (NoDup [0; 1; 2]%nat) as Hnd by (apply NoDup_ListNoDup; repeat constructor; simpl; lia).
  assert (active ABC_added = []) as Hact by (vm_compute; reflexivity).
  assert ([2; 0; 1]%nat ≡ₚ [0; 1; 2]%nat) as Hrefs.
  { exact (perm_trans (perm_swap 0%nat 2%nat [1%nat])
             (perm_skip 0%nat (perm_swap 1%nat 2%nat []))). }
  assert (["C"; "A"; "B"]%string ≡ₚ ["A"; "B"; "C"]%string) as Hkeys.
  { exact (perm_trans (perm_swap "A"%string "C"%string ["B"%string])
             (perm_skip "A"%string (perm_swap "B"%string "C"%string []))). }
  split.
  - split; [exact Hst|]. split; [exact Hnd|]. split; [exact Hact|].
    split; [exact Hrefs|].
    exact (proj1 (proj2 (proj2 (proj2 (proj2 (proj2
             active_list_sorted_after_mutation)))))
             ABC_added 0%nat 1%nat 2%nat [2; 0; 1]%nat Hst Hnd Hact Hrefs).
  - split; [exact Hkeys|].
    exact (proj2 (proj2 (proj2 (proj2 (proj2 (proj2
             active_list_sorted_after_mutation)))))
             ["C"; "A"; "B"]%string Hkeys).
Defined.

(** ** The boot deferral queue *)

(** C6, as stated, fails when a replayed [add] throws.  Before boot the
    queue takes [add('A', {}); add('A', {}); add('B', {})]; at boot the
    second replayed [add] throws the duplicate-key error, which leaves
    [boot]: the third entry is never added and the queue still holds the
    three entries. *)
Lemma boot_stops_at_duplicate_key :
  match boot 4 (game_booted queued_twice) with
  | Some (w, Throw e) =>
      e = DuplicateKey "A"
      /\ length (_pending w) = 3%nat
      /\ getState "A" w = StateObject 0%nat
      /\ getState "B" w = Undefined
  | _ => False
  end.
Proof. vm_compute. repeat split; reflexivity. Qed.

(** C6, amended.  Before boot, [add] only appends the record
    [{index: queue length, key, state, autoStart}] to the queue and returns
    undefined.  After boot, [boot] (given enough turns) calls [add] for the
    queued entries in insertion order with their key, source and autoStart,
    up to the first call that throws.  When all calls return, [boot] empties
    the queue; when one throws, [boot] ends with that error and the queue is
    as it was. *)
Theorem boot_replays_the_queue :
  (forall key stateConfig autoStart w,
      isBooted (game w) = false ->
      add key stateConfig autoStart w
      = (set_pending
           (_pending w ++ [pending_record key stateConfig autoStart w]) w,
         Return None))
  /\ (forall fuel w,
        isBooted (game w) = true ->
        (length (_pending w) < fuel)%nat ->
        match replay (_pending w) w with
        | (w', Return _) => boot fuel w = Some (set_pending [] w', Return tt)
        | (w', Throw e) =>
            boot fuel w = Some (w', Throw e) /\ _pending w' = _pending w
        end).
Proof.
  split.
  - intros key stateConfig autoStart w Hb. unfold add. by rewrite Hb.
  - intros fuel w Hb Hfuel. unfold boot.
    rewrite (boot_loop_replay fuel 0 w Hb) by lia. rewrite drop_0.
    pose proof (replay_queue (_pending w) w Hb) as [Hq _].
    destruct (replay (_pending w) w) as [w' [r|e]]; simpl in *; done.
Qed.

Lemma boot_replays_the_queue_witness :
  (isBooted (game (StateManager (a_game false) [] [blank_Config] NoStateConfig))
   = false
   /\ _pending
        (fst (add (Some "A"%string) (SrcObject 0%nat) None
                (StateManager (a_game false) [] [blank_Config] NoStateConfig)))
      = [ {| p_index := 0; p_key := Some "A"%string;
             p_state := SrcObject 0%nat; p_autoStart := false |} ])
  /\ isBooted (game (game_booted queued_twice)) = true
  /\ (length (_pending (game_booted queued_twice)) < 4)%nat
  /\ match replay (_pending (game_booted queued_twice))
             (game_booted queued_twice) with
     | (w', Return _) =>
         boot 4 (game_booted queued_twice) = Some (set_pending [] w', Return tt)
     | (w', Throw e) =>
         boot 4 (game_booted queued_twice) = Some (w', Throw e)
         /\ _pending w' = _pending (game_booted queued_twice)
     end.
Proof.
  assert (isBooted (game (StateManager (a_game false) [] [blank_Config]
                            NoStateConfig)) = false) as Hu by reflexivity.
  assert (isBooted (game (game_booted queued_twice)) = true) as Hb
    by reflexivity.
  assert (length (_pending (game_booted queued_twice)) < 4)%nat as Hfuel
    by (vm_compute; lia).
  split.
  - split; [exact Hu|].
    rewrite (proj1 boot_replays_the_queue (Some "A"%string) (SrcObject 0%nat)
               None _ Hu).
    reflexivity.
  - split; [exact Hb|]. split; [exact Hfuel|].
    exact (proj2 boot_replays_the_queue 4%nat (game_booted queued_twice)
             Hb Hfuel).
Defined.

(** ** The key a state is registered under *)

(** C9, as stated, fails when the source carries a key of its own.  For
    [add('A', {key: 'B'})] the state is registered under 'B' and nothing is
    registered under the key argument 'A'. *)
Lemma explicit_key_overridden_by_record_key :
  snd (add (Some "A"%string) (SrcObject 0%nat) None keyed_record)
  = Return (Some 0%nat)
  /\ getState "A" (fst (add (Some "A"%string) (SrcObject 0%nat) None keyed_record))
     = Undefined
  /\ getState "B" (fst (add (Some "A"%string) (SrcObject 0%nat) None keyed_record))
     = StateObject 0%nat.
Proof. repeat split; vm_compute; reflexivity. Qed.

(** C9, amended.  A post-boot [add] that returns a state has registered it
    under the key the source carries, when it carries one: the key in the
    settings of a State instance, or the own key property of a plain
    record.  The key argument is used only for a record without a key and
    for a function, and the literal 'default' only when, in addition, the
    key argument is missing or empty. *)
Theorem add_registers_under_source_key key stateConfig autoStart w w' newState :
  isBooted (game w) = true ->
  add key stateConfig autoStart w = (w', Return (Some newState)) ->
  match stateConfig with
  | SrcInstance r => getState (settings_key (obj r w)) w' = StateObject newState
  | SrcObject c =>
      match cfg_key (cfg c w) with
      | Some k => getState k w' = StateObject newState
      | None => getState (key_or_default key) w' = StateObject newState
      end
  | SrcFunction _ => getState (key_or_default key) w' = StateObject newState
  end.
Proof.
  intros Hb Hadd.
  destruct (getKey_cases key stateConfig w) as [[e Hget]|(Hget & Hfree & _)].
  { rewrite (add_rejected key stateConfig autoStart w e Hb Hget) in Hadd.
    discriminate. }
  destruct (add_booted_fields key stateConfig autoStart w Hb Hget)
    as (Hret & Hkeys & Hproto & _).
  rewrite Hadd in Hret, Hkeys, Hproto. simpl in Hret, Hkeys, Hproto.
  assert (getState (effective_key key stateConfig w) w' = StateObject newState)
    as H.
  { injection Hret as Hn. rewrite <- Hn in Hkeys, Hproto.
    pose proof (getState_keys_put (effective_key key stateConfig w)
                  newState w Hfree) as Hput.
    apply getState_StateObject in Hput. apply getState_StateObject.
    by rewrite Hkeys, Hproto. }
  unfold effective_key in H. fold (key_or_default key) in H.
  destruct stateConfig as [r|c|f]; [done| |done].
  by destruct (cfg_key (cfg c w)).
Qed.

Lemma add_registers_under_source_key_witness :
  isBooted (game keyed_record) = true
  /\ add (Some "A"%string) (SrcObject 0%nat) None keyed_record
     = (fst (add (Some "A"%string) (SrcObject 0%nat) None keyed_record),
        Return (Some 0%nat))
  /\ getState "B" (fst (add (Some "A"%string) (SrcObject 0%nat) None keyed_record))
     = StateObject 0%nat.
Proof.
  assert (isBooted (game keyed_record) = true) as Hb by reflexivity.
  assert (add (Some "A"%string) (SrcObject 0%nat) None keyed_record
          = (fst (add (Some "A"%string) (SrcObject 0%nat) None keyed_record),
             Return (Some 0%nat))) as Hadd by (vm_compute; reflexivity).
  split; [exact Hb|]. split; [exact Hadd|].
  exact (add_registers_under_source_key
           (Some "A"%string) (SrcObject 0%nat) None keyed_record _ 0%nat
           Hb Hadd).
Defined.

(** ** The caller's configuration record *)

(** C10, as stated, fails when the resolved key is already registered.
    With 'default' registered, [add(undefined, {})] throws before the
    record is touched: its key field is still absent, not 'default'. *)
Lemma rejected_add_leaves_record_alone :
  effective_key None (SrcObject 1%nat) default_added = "default"%string
  /\ snd (add None (SrcObject 1%nat) None default_added)
     = Throw (DuplicateKey "default")
  /\ cfg_key (cfg 1%nat (fst (add None (SrcObject 1%nat) None default_added)))
     <> Some "default"%string.
Proof.
  split; [vm_compute; reflexivity|]. split; [vm_compute; reflexivity|].
  vm_compute. discriminate.
Qed.

(** C10, amended.  A post-boot [add] of a plain record whose key check
    passes writes the resolved key into the key field of the caller's
    record, leaves the other fields and the other records alone, and builds
    the new State from the record as written: the key in the settings of the
    State is the resolved key.  When the key check throws, [add] throws
    with everything, the record included, as it was.  The check passes
    when the resolved key is no own key of the key map and no State is
    registered as 'hasOwnProperty'. *)
Theorem add_writes_key_into_record key c autoStart w :
  isBooted (game w) = true ->
  (c < length (cfgs w))%nat ->
  let k := effective_key key (SrcObject c) w in
  let w' := fst (add key (SrcObject c) autoStart w) in
  match getKey key (SrcObject c) w with
  | Return _ =>
      cfg c w' = with_cfg_key k (cfg c w)
      /\ (forall c', c' <> c -> cfg c' w' = cfg c' w)
      /\ snd (add key (SrcObject c) autoStart w)
         = Return (Some (length (objs w)))
      /\ settings_key (obj (length (objs w)) w') = k
  | Throw e => add key (SrcObject c) autoStart w = (w, Throw e)
  end
  /\ (keys w !! k = None -> keys w !! "hasOwnProperty"%string = None ->
      getKey key (SrcObject c) w = Return k).
Proof.
  intros Hb Hc k w'. split; [|intros Hfree Hown; by apply getKey_returns].
  destruct (getKey_cases key (SrcObject c) w) as [[e Hget]|(Hget & Hfree & _)].
  { rewrite Hget. by apply add_rejected. }
  rewrite Hget. subst w'.
  destruct (add_booted_fields key (SrcObject c) autoStart w Hb Hget)
    as (Hret & _ & _ & _ & Hcfgs & _).
  fold k in Hret, Hcfgs.
  destruct (adapted_frame k (SrcObject c) w) as (_ & _ & _ & _ & _ & Hcf).
  rewrite Hcf in Hcfgs. unfold cfg at 1 2. rewrite Hcfgs.
  split; [by rewrite list_lookup_total_insert_eq|].
  split.
  { intros c' Hne. unfold cfg. rewrite Hcfgs.
    by rewrite list_lookup_total_insert_ne. }
  split; [exact Hret|].
  rewrite (add_booted key (SrcObject c) autoStart w Hb Hget). fold k. simpl.
  set (w0 := set_cfgs _ w).
  pose proof (settings_key_createStateFromObject k c w0) as Hkey.
  replace (cfg c w0) with (with_cfg_key k (cfg c w)) in Hkey
    by (unfold cfg, w0; simpl; by rewrite list_lookup_total_insert_eq).
  simpl in Hkey.
  case_match; [rewrite settings_key_start|]; autorewrite with store; exact Hkey.
Qed.

Lemma add_writes_key_into_record_witness :
  isBooted (game three_records) = true
  /\ (0 < length (cfgs three_records))%nat
  /\ getKey None (SrcObject 0%nat) three_records = Return "default"%string
  /\ cfg 0%nat (fst (add None (SrcObject 0%nat) None three_records))
     = with_cfg_key "default" blank_Config.
Proof.
  assert (isBooted (game three_records) = true) as Hb by reflexivity.
  assert (0 < length (cfgs three_records))%nat as Hc by (simpl; lia).
  assert (getKey None (SrcObject 0%nat) three_records
          = Return "default"%string) as Hk by (vm_compute; reflexivity).
  split; [exact Hb|]. split; [exact Hc|]. split; [exact Hk|].
  pose proof (add_writes_key_into_record None 0%nat None three_records Hb Hc)
    as H.
  cbv zeta in H. destruct H as [H _]. rewrite Hk in H. exact (proj1 H).
Defined.


(** * Further properties *)

(** ** isActive, pause and getActiveStateIndex *)

(** X1.  [isActive(key)] never answers true, whatever the key and the
    world.  For a key that yields nothing it is falsy; for a registered
    State [this.active.indexOf(state)] is -1, since [this.active] holds
    [{index, state}] literals and no State; and for a key under which the
    prototype chain of [this.keys] holds something else (such as
    'toString') it throws a TypeError, reading [settings.active] of a value
    without [settings]. *)
Theorem isActive_never_true key w :
  isActive key w <> Return true
  /\ (isActive key w = Return false
      <-> getState key w = Undefined
          \/ exists state, getState key w = StateObject state)
  /\ (isActive key w = Throw TypeError
      <-> exists v, getState key w = Other v).
Proof.
  rewrite isActive_false.
  destruct (getState key w) as [|state|v]; split; try done; split.
  - split; [by left|done].
  - split; [done|]. by intros [v ?].
  - split; [|done]. right. by exists state.
  - split; [done|]. by intros [v ?].
  - split; [done|]. by intros [?|[state ?]].
  - split; [|done]. by exists v.
Qed.

(** X2.  [pause(key)] with a string key returns normally and leaves the
    world exactly as it was, whatever the key and the world: registered or
    not, started or not. *)
Theorem pause_string_key_changes_nothing key w :
  pause (VString key) w = (w, Return tt).
Proof.
  unfold pause. rewrite getActiveStateIndex_key. reflexivity.
Qed.

Lemma getActiveStateIndex_loop_first l state :
  (forall b, b ∈ l -> ar_state b <> state) /\
    getActiveStateIndex_loop l (VState state) = -1
  \/ exists l1 a l2,
       l = l1 ++ a :: l2 /\ ar_state a = state
       /\ (forall b, b ∈ l1 -> ar_state b <> state)
       /\ getActiveStateIndex_loop l (VState state) = ar_index a.
Proof.
  induction l as [|a l IH]; simpl.
  - left. split; [|done]. intros b Hb. by apply elem_of_nil in Hb.
  - destruct (Nat.eqb_spec (ar_state a) state) as [Heq|Hne].
    + right. exists [], a, l. repeat split; try done.
      intros b Hb. by apply elem_of_nil in Hb.
    + destruct IH as [[Hall Hr]|(l1 & b & l2 & -> & Hb & Hl1 & Hr)].
      * left. split; [|done]. intros b Hb.
        apply elem_of_cons in Hb as [->|Hb]; [done|by apply Hall].
      * right. exists (a :: l1), b, l2. repeat split; try done.
        intros c Hc. apply elem_of_cons in Hc as [->|Hc]; [done|by apply Hl1].
Qed.

(** X3.  Called with a State object, [getActiveStateIndex] returns -1 when
    no record of the active list holds that State, and otherwise the
    [index] field (the registration index, not the position in the active
    list) of the first record that holds it. *)
Theorem getActiveStateIndex_first_record state w :
  (~ in_active state w /\ getActiveStateIndex (VState state) w = -1)
  \/ exists l1 a l2,
       active w = l1 ++ a :: l2 /\ ar_state a = state
       /\ (forall b, b ∈ l1 -> ar_state b <> state)
       /\ getActiveStateIndex (VState state) w = ar_index a.
Proof.
  unfold getActiveStateIndex, in_active.
  destruct (getActiveStateIndex_loop_first (active w) state) as [[Hall Hr]|H].
  - left. split; [|done]. intros (a & Ha & Hst). by apply (Hall a).
  - by right.
Qed.

(** ** sortStates *)

(** X4.  [sortStates] is a consistent comparator for ascending order of
    [index]: it is negative, zero or positive exactly as the first index is
    below, equal to or above the second, swapping the arguments negates the
    result, and "not after" is transitive. *)
Theorem sortStates_consistent a b c :
  (sortStates a b = -1 <-> ar_index a < ar_index b)
  /\ (sortStates a b = 0 <-> ar_index a = ar_index b)
  /\ (sortStates a b = 1 <-> ar_index a > ar_index b)
  /\ sortStates b a = - sortStates a b
  /\ (sortStates a b <= 0 -> sortStates b c <= 0 -> sortStates a c <= 0).
Proof.
  unfold sortStates.
  destruct (Z.ltb_spec (ar_index a) (ar_index b)),
    (Z.gtb_spec (ar_index a) (ar_index b)),
    (Z.ltb_spec (ar_index b) (ar_index a)),
    (Z.gtb_spec (ar_index b) (ar_index a)),
    (Z.ltb_spec (ar_index b) (ar_index c)),
    (Z.gtb_spec (ar_index b) (ar_index c)),
    (Z.ltb_spec (ar_index a) (ar_index c)),
    (Z.gtb_spec (ar_index a) (ar_index c)); lia.
Qed.

(** ** Fields that updates in place leave alone *)

Lemma proj_modify {A} (p : State -> A) r st f w :
  (forall s, p (f s) = p s) -> p (obj r (modify st f w)) = p (obj r w).
Proof.
  intros Hf. destruct (decide (r = st)) as [->|Hne].
  - destruct (decide (st < length (objs w))%nat) as [Hlt|Hge].
    + by rewrite obj_modify_same.
    + unfold modify. by rewrite list_insert_ge by lia.
  - by rewrite obj_modify_other.
Qed.

(** ** start after boot *)

(** X5.  After boot, [start(key)] on a registered state always returns
    with [settings.active] set.  It reaches the create phase itself, and the
    record is in the active list on return, exactly when the preload phase
    leaves the loader queue empty (no preload hook, no loader, or a hook
    that queues nothing).  Otherwise the active list is as it was, the
    loader has been subscribed to once and started, and its queue holds the
    loadables of the preload hook only: what the init hook queued was reset
    away. *)
Theorem start_sync_or_async key state w :
  isBooted (game w) = true ->
  getState key w = StateObject state ->
  (state < length (objs w))%nat ->
  snd (start key w) = Return tt
  /\ settings_active (obj state (fst (start key w))) = true
  /\ if Nat.eqb (preload_queue (obj state w)) 0
     then
       active (fst (start key w))
       = array_sort sortStates (active w ++ [new_record state w])
       /\ log (fst (start key w))
          = log w ++ init_events state w ++ preload_events state w
              ++ create_events state w ++ [MainLoopStart state]
     else
       active (fst (start key w)) = active w
       /\ log (fst (start key w))
          = log w ++ init_events state w ++ preload_events state w
              ++ [LoaderOnce state; LoaderStart state]
       /\ sys_load (obj state (fst (start key w)))
          = Some {| list_size := preload_queue (obj state w) |}.
Proof.
  intros Hb Hs Hlt. split; [by apply (start_returns _ state)|].
  rewrite (start_booted key state w Hb Hs). cbn [fst].
  unfold preload_queue, init_events, preload_events. simpl.
  destruct (init (obj state w)) as [fi|] eqn:Hi;
    destruct (preload (obj state w)) as [fp|] eqn:Hp;
    destruct (sys_load (obj state w)) as [l|] eqn:Hl.
  all: repeat (progress (obj_simpl; rewrite ?Hi, ?Hl, ?Hp)).
  all: try destruct (Nat.eqb_spec (loads_of fp) 0) as [Hz|Hnz].
  all: repeat (progress (obj_simpl; rewrite ?Hi, ?Hl, ?Hp)).
  all: rewrite ?startCreate_log, ?startCreate_active, ?startCreate_settings_active.
  all: unfold create_events, new_record, getStateIndex.
  all: repeat (progress (obj_simpl; rewrite ?Hi, ?Hl, ?Hp)).
  all: rewrite <- ?app_assoc; simpl.
  all: done.
Qed.

Lemma start_sync_or_async_witness :
  isBooted (game L_added) = true
  /\ getState "L" L_added = StateObject 0%nat
  /\ (0 < length (objs L_added))%nat
  /\ settings_active (obj 0%nat (fst (start "L" L_added))) = true
  /\ sys_load (obj 0%nat (fst (start "L" L_added)))
     = Some {| list_size := 2 |}.
Proof.
  assert (isBooted (game L_added) = true) as Hb by (vm_compute; reflexivity).
  assert (getState "L" L_added = StateObject 0%nat) as Hs
    by (vm_compute; reflexivity).
  assert (0 < length (objs L_added))%nat as Hlt by (vm_compute; lia).
  pose proof (start_sync_or_async "L" 0%nat L_added Hb Hs Hlt)
    as (_ & Hact & H).
  split; [exact Hb|]. split; [exact Hs|]. split; [exact Hlt|].
  split; [exact Hact|].
  assert (Nat.eqb (preload_queue (obj 0%nat L_added)) 0 = false) as Hq
    by (vm_compute; reflexivity).
  rewrite Hq in H. destruct H as (_ & _ & Hload).
  etransitivity; [exact Hload|]. vm_compute. reflexivity.
Defined.

(** ** start before boot *)

Lemma start_unbooted key w :
  isBooted (game w) = false ->
  start key w
  = (set_pending
       (map (fun entry =>
               if decide (p_key entry = Some key) then with_autoStart true entry
               else entry) (_pending w)) w,
     Return tt).
Proof. intros Hb. unfold start. by rewrite Hb. Qed.

Lemma set_pending_same w : set_pending (_pending w) w = w.
Proof. by destruct w. Qed.

(** X6.  Before boot, [start(key)] touches nothing but the queue, and in
    the queue nothing but the autoStart flag: the flag of every entry
    queued under exactly that key becomes true, no flag is lowered, and
    keys, sources, indices and the order of the entries stay.  An entry
    queued without a key is never marked.  A key that no entry carries
    leaves the world as it was, and a second call changes nothing more. *)
Theorem start_before_boot key w :
  isBooted (game w) = false ->
  start key w = (set_pending (_pending (fst (start key w))) w, Return tt)
  /\ length (_pending (fst (start key w))) = length (_pending w)
  /\ (forall i entry,
        _pending w !! i = Some entry ->
        exists entry',
          _pending (fst (start key w)) !! i = Some entry'
          /\ p_index entry' = p_index entry
          /\ p_key entry' = p_key entry
          /\ p_state entry' = p_state entry
          /\ p_autoStart entry'
             = p_autoStart entry || bool_decide (p_key entry = Some key))
  /\ ((forall entry, entry ∈ _pending w -> p_key entry <> Some key) ->
      start key w = (w, Return tt))
  /\ start key (fst (start key w)) = start key w.
Proof.
  intros Hb. rewrite (start_unbooted key w Hb). cbn [fst].
  split; [done|]. split; [simpl; by rewrite length_map|]. split; [|split].
  - intros i entry Hi. simpl. rewrite list_lookup_fmap, Hi. simpl.
    eexists. split; [done|]. case_decide as Hk; simpl; repeat split.
    + by rewrite bool_decide_true, orb_true_r.
    + by rewrite bool_decide_false, orb_false_r.
  - intros Hnone. f_equal.
    assert (map (fun entry =>
                   if decide (p_key entry = Some key)
                   then with_autoStart true entry else entry) (_pending w)
            = _pending w) as ->; [|apply set_pending_same].
    rewrite <- (map_id (_pending w)) at 2.
    apply map_ext_in. intros entry Hin. case_decide as Hk; [|done].
    exfalso. apply (Hnone entry); [by apply list_elem_of_In|done].
  - rewrite start_unbooted by done. f_equal. unfold set_pending. simpl.
    f_equal. rewrite map_map. apply map_ext. intros entry.
    case_decide as Hk; simpl; case_decide; done.
Qed.

Lemma start_before_boot_witness :
  isBooted (game queued_twice) = false
  /\ length (_pending (fst (start "A" queued_twice)))
     = length (_pending queued_twice)
  /\ map p_autoStart (_pending (fst (start "A" queued_twice)))
     = [true; true; false].
Proof.
  assert (isBooted (game queued_twice) = false) as Hb by (vm_compute; reflexivity).
  split; [exact Hb|].
  split; [exact (proj1 (proj2 (start_before_boot "A" queued_twice Hb)))|].
  vm_compute. reflexivity.
Defined.

(** ** What start and the create phase leave alone *)

(** X7.  [start(key)] never changes the key object, the state list, the
    caller's configuration records or the host, whether it returns or
    throws; after boot it does not change the queue either.  After boot,
    for a key that yields nothing it returns with the world exactly as it
    was, and for a key under which the prototype chain of [this.keys] holds
    something that is no State (such as 'constructor') it throws a
    TypeError, again with the world as it was. *)
Theorem start_leaves_registry_alone key w :
  (keys (fst (start key w)) = keys w
   /\ keys_proto (fst (start key w)) = keys_proto w
   /\ states (fst (start key w)) = states w
   /\ cfgs (fst (start key w)) = cfgs w
   /\ game (fst (start key w)) = game w
   /\ length (objs (fst (start key w))) = length (objs w))
  /\ (isBooted (game w) = true -> _pending (fst (start key w)) = _pending w)
  /\ (isBooted (game w) = true -> getState key w = Undefined ->
      start key w = (w, Return tt))
  /\ (isBooted (game w) = true ->
      forall v, getState key w = Other v -> start key w = (w, Throw TypeError)).
Proof.
  destruct (start_frame key w) as (Hg & Hk & Hs & Hc & Hp & _).
  split; [by rewrite start_length, start_keys_proto|]. split; [exact Hp|].
  split; intros Hb; by apply start_not_a_state.
Qed.

Lemma start_active key w :
  active (fst (start key w)) = active w
  \/ exists state,
       getState key w = StateObject state
       /\ active (fst (start key w))
          = array_sort sortStates (active w ++ [new_record state w]).
Proof.
  destruct (isBooted (game w)) eqn:Hb.
  2: { unfold start. rewrite Hb. by left. }
  destruct (getState key w) as [|state|v] eqn:Hs.
  - rewrite (proj1 (start_not_a_state key w Hb) Hs). by left.
  - rewrite (start_booted key state w Hb Hs). cbn [fst].
    repeat case_match; try (by left).
    all: right; exists state; split; [done|]; by rewrite startCreate_active.
  - rewrite (proj2 (start_not_a_state key w Hb) v Hs). by left.
Qed.

Lemma array_sort_grows {A} (cmp : A -> A -> Z) (l : list A) x :
  l ⊆+ array_sort cmp (l ++ [x]).
Proof.
  rewrite array_sort_perm. by apply submseteq_inserts_r.
Qed.

Lemma start_grows key w : active w ⊆+ active (fst (start key w)).
Proof.
  destruct (start_active key w) as [->|(state & _ & ->)];
    [done|apply array_sort_grows].
Qed.

(** X8.  No operation called with a key takes a record out of the active
    list.  [startCreate] and [loadComplete] add exactly one record and keep
    every earlier one; [start] and [add] either leave the list as it was or
    add one record to it; [step] and [pause] with a string key leave it as
    it was. *)
Theorem active_records_are_never_removed w :
  (forall state,
     active (startCreate state w) ≡ₚ active w ++ [new_record state w])
  /\ (forall state,
        active (loadComplete state w) ≡ₚ active w ++ [new_record state w])
  /\ (forall key, active w ⊆+ active (fst (start key w)))
  /\ (forall key stateConfig autoStart,
        active w ⊆+ active (fst (add key stateConfig autoStart w)))
  /\ (forall timestamp, active (step timestamp w) = active w)
  /\ (forall key, active (fst (pause (VString key) w)) = active w).
Proof.
  split; [|split; [|split; [|split; [|split]]]].
  - intros state. rewrite startCreate_active. apply array_sort_perm.
  - intros state. unfold loadComplete. rewrite startCreate_active.
    rewrite array_sort_perm. by destruct (loadUpdate (obj state w)).
  - intros key. apply start_grows.
  - intros key stateConfig autoStart.
    destruct (isBooted (game w)) eqn:Hb; [|unfold add; by rewrite Hb].
    destruct (getKey_cases key stateConfig w) as [[e Hget]|(Hget & _)].
    { by rewrite (add_rejected key stateConfig autoStart w e Hb Hget). }
    rewrite (add_booted key stateConfig autoStart w Hb Hget). cbn [fst].
    destruct (adapted_frame (effective_key key stateConfig w) stateConfig w)
      as (_ & _ & _ & Hact & _).
    set (w2 := set_states _ _).
    assert (active w2 = active w) as Hact2.
    { unfold w2. simpl. by rewrite (proj1 (proj2 (proj2 (keys_put_frame _ _ _)))). }
    destruct (_ || _); [|by rewrite Hact2].
    etransitivity; [|apply start_grows]. by rewrite Hact2.
  - intros timestamp. apply (step_loop timestamp (active w) w).
  - intros key. by rewrite pause_key.
Qed.

(** ** boot *)

Lemma boot_loop_unbooted fuel : forall i w,
  isBooted (game w) = false ->
  (i < length (_pending w))%nat ->
  boot_loop fuel i w = None.
Proof.
  induction fuel as [|fuel IH]; intros i w Hb Hi; simpl; [done|].
  destruct (lookup_lt_is_Some_2 (_pending w) i Hi) as [entry ->].
  unfold add. rewrite Hb. simpl. apply IH; simpl; [done|].
  rewrite length_app. simpl. lia.
Qed.

(** X9.  While the host is not booted, [boot] on a non-empty queue never
    returns: every replayed [add] only appends one more entry to the queue
    the loop is walking, so no number of turns reaches its end. *)
Theorem boot_before_host_boot_never_returns fuel w :
  isBooted (game w) = false ->
  _pending w <> [] ->
  boot fuel w = None.
Proof.
  intros Hb Hq. apply boot_loop_unbooted; [done|].
  destruct (_pending w); [done|simpl; lia].
Qed.

Lemma boot_before_host_boot_never_returns_witness :
  isBooted (game queued_twice) = false
  /\ _pending queued_twice <> []
  /\ boot 1000 queued_twice = None.
Proof.
  assert (isBooted (game queued_twice) = false) as Hb
    by (vm_compute; reflexivity).
  assert (_pending queued_twice <> []) as Hq by (vm_compute; discriminate).
  split; [exact Hb|]. split; [exact Hq|].
  exact (boot_before_host_boot_never_returns 1000 queued_twice Hb Hq).
Defined.

Lemma boot_loop_returns fuel : forall i w w',
  isBooted (game w) = true ->
  boot_loop fuel i w = Some (w', Return tt) ->
  _pending w' = []
  /\ (length (states w')
      = length (states w) + (length (_pending w) - i))%nat
  /\ (size (keys w') <= size (keys w) + (length (_pending w) - i))%nat.
Proof.
  induction fuel as [|fuel IH]; intros i w w' Hb; simpl; [done|].
  destruct (_pending w !! i) as [entry|] eqn:Hi.
  - pose proof (add_booted_queue (p_key entry) (p_state entry)
                  (Some (p_autoStart entry)) w Hb) as [Hp Hg].
    destruct (getKey_cases (p_key entry) (p_state entry) w)
      as [[e Hget]|(Hget & Hfree & _)].
    { by rewrite (add_rejected _ _ _ w e Hb Hget). }
    destruct (add_booted_fields (p_key entry) (p_state entry)
                (Some (p_autoStart entry)) w Hb Hget)
      as (Hret & Hkeys & _ & Hstates & _).
    destruct (add (p_key entry) (p_state entry) (Some (p_autoStart entry)) w)
      as [w1 [r|e]]; simpl in *; [|discriminate].
    intros Hloop. apply IH in Hloop as (Hq & Hs & Hn); [|by rewrite Hg].
    apply lookup_lt_Some in Hi.
    split; [done|]. split.
    + rewrite Hs, Hstates, length_app, Hp. simpl. lia.
    + assert (size (keys w1) <= S (size (keys w)))%nat as Hle.
      { rewrite Hkeys. unfold keys_put. case_decide; simpl; [lia|].
        rewrite map_size_insert_None by done. lia. }
      rewrite Hp in Hn. lia.
  - intros [= <-]. apply lookup_ge_None in Hi. simpl.
    split; [done|]. split; lia.
Qed.

(** X10.  When [boot] returns (the host being booted), the queue is empty
    and every queued entry has been registered: the state list has grown
    by the length of the queue.  The key object has gained at most as
    many own keys (an entry registered as '__proto__' adds none).  [boot]
    on an empty queue returns at once with the world as it was, so a second
    call after a boot that returned changes nothing. *)
Theorem boot_that_returns fuel w w' :
  isBooted (game w) = true ->
  boot fuel w = Some (w', Return tt) ->
  _pending w' = []
  /\ (length (states w') = length (states w) + length (_pending w))%nat
  /\ (size (keys w') <= size (keys w) + length (_pending w))%nat
  /\ forall fuel', boot (S fuel') w' = Some (w', Return tt).
Proof.
  intros Hb Hboot.
  destruct (boot_loop_returns fuel 0 w w' Hb Hboot) as (Hq & Hs & Hk).
  rewrite Nat.sub_0_r in Hs, Hk. repeat split; try done.
  intros fuel'. unfold boot. simpl. rewrite Hq. simpl.
  rewrite <- Hq. by rewrite set_pending_same.
Qed.

Lemma boot_that_returns_witness :
  isBooted (game (game_booted (StateManager (a_game false) []
                                 [blank_Config] (OneStateConfig (SrcObject 0%nat)))))
  = true
  /\ (exists w',
        boot 2 (game_booted (StateManager (a_game false) [] [blank_Config]
                               (OneStateConfig (SrcObject 0%nat))))
        = Some (w', Return tt)
        /\ _pending w' = [] /\ length (states w') = 1%nat).
Proof.
  set (w := game_booted (StateManager (a_game false) [] [blank_Config]
                           (OneStateConfig (SrcObject 0%nat)))).
  assert (isBooted (game w) = true) as Hb by reflexivity.
  split; [exact Hb|].
  destruct (boot 2 w) as [[w' [[]|e]]|] eqn:Hboot;
    [|vm_compute in Hboot; discriminate..].
  exists w'. split; [reflexivity|].
  destruct (boot_that_returns 2 w w' Hb Hboot) as (Hq & Hs & _).
  split; [exact Hq|exact Hs].
Defined.

(** ** Readings of an object that the collaborators leave alone *)

Lemma stable_identity : stable identity.
Proof. repeat split. Qed.

Lemma stable_settings_active : stable settings_active.
Proof. repeat split. Qed.

Lemma stable_settings_key : stable settings_key.
Proof. repeat split. Qed.

Section Stable.
Context {A : Type} (p : State -> A).
Hypothesis Hp : stable p.

Lemma stable_enqueue n s : p (enqueue n s) = p s.
Proof. unfold enqueue. apply Hp. Qed.

Lemma stable_call r st h f w : p (obj r (call st h f w)) = p (obj r w).
Proof.
  unfold call. rewrite proj_modify by apply stable_enqueue. done.
Qed.

Lemma stable_load_reset r st w : p (obj r (load_reset st w)) = p (obj r w).
Proof.
  unfold load_reset. rewrite proj_modify; [done|]. intros s. apply Hp.
Qed.

Lemma stable_mainloop_start r st w :
  p (obj r (mainloop_start st w)) = p (obj r w).
Proof.
  unfold mainloop_start. rewrite proj_modify; [done|]. intros s. apply Hp.
Qed.

Lemma stable_sys_init r st w : p (obj r (sys_init st w)) = p (obj r w).
Proof.
  unfold sys_init. rewrite proj_modify; [done|]. intros s. apply Hp.
Qed.

Lemma stable_frame_buffer r st w :
  p (obj r (frame_buffer_if_webgl st w)) = p (obj r w).
Proof.
  unfold frame_buffer_if_webgl, createStateFrameBuffer.
  destruct (renderType (game w)); [done|].
  rewrite proj_modify by (intros s; apply Hp). autorewrite with store.
  rewrite proj_modify by (intros s; apply Hp). done.
Qed.

Transparent startCreate.

Lemma stable_startCreate r st w : p (obj r (startCreate st w)) = p (obj r w).
Proof.
  unfold startCreate.
  rewrite stable_mainloop_start, proj_modify by (intros s; apply Hp).
  autorewrite with store.
  destruct (create (obj st w)); [apply stable_call | done].
Qed.

Opaque startCreate.

Lemma stable_loadComplete r st w :
  p (obj r (loadComplete st w)) = p (obj r w).
Proof.
  unfold loadComplete. rewrite stable_startCreate.
  destruct (loadUpdate (obj st w)); [apply stable_call | done].
Qed.

Lemma stable_step r timestamp w : p (obj r (step timestamp w)) = p (obj r w).
Proof.
  unfold obj. by rewrite (proj1 (step_frame timestamp w)).
Qed.

Hypothesis Hactive : forall b s, p (with_settings_active b s) = p s.

Lemma stable_start r key w : p (obj r (fst (start key w))) = p (obj r w).
Proof.
  unfold start.
  repeat case_match; cbn [fst];
    repeat first
      [ progress autorewrite with store
      | rewrite stable_startCreate
      | rewrite stable_call
      | rewrite stable_load_reset
      | rewrite proj_modify by (intros s; apply Hactive) ];
    done.
Qed.

Lemma stable_pause r key w : p (obj r (fst (pause key w))) = p (obj r w).
Proof.
  unfold pause. repeat case_match; simpl; try done.
  autorewrite with store. by rewrite proj_modify by (intros s; apply Hactive).
Qed.
End Stable.

(** ** The State object that add registers *)

Lemma obj_alloc_old r s w :
  (r < length (objs w))%nat -> obj r (snd (alloc s w)) = obj r w.
Proof. intros Hr. unfold obj, alloc. simpl. by rewrite lookup_total_app_l. Qed.

Lemma obj_alloc_new s w : obj (length (objs w)) (snd (alloc s w)) = s.
Proof. unfold obj, alloc. simpl. by rewrite list_lookup_total_middle. Qed.

Lemma obj_frame_buffer_other r st w :
  r <> st -> obj r (frame_buffer_if_webgl st w) = obj r w.
Proof.
  intros Hne. unfold frame_buffer_if_webgl, createStateFrameBuffer.
  destruct (renderType (game w)); [done|].
  rewrite obj_modify_other by done. autorewrite with store.
  by rewrite obj_modify_other.
Qed.

Lemma obj_sys_init_other r st w : r <> st -> obj r (sys_init st w) = obj r w.
Proof. intros Hne. unfold sys_init. by rewrite obj_modify_other. Qed.

Lemma obj_adapted_other key stateConfig r w :
  (r < length (objs w))%nat ->
  r <> fst (adapted key stateConfig w) ->
  obj r (snd (adapted key stateConfig w)) = obj r w.
Proof.
  intros Hr. rewrite adapted_ref.
  destruct stateConfig as [i|c|f]; simpl; intros Hne.
  - unfold createStateFromInstance. simpl.
    rewrite obj_frame_buffer_other, obj_sys_init_other by done.
    by rewrite !obj_modify_other.
  - unfold createStateFromObject, setupCallbacks. simpl.
    rewrite obj_modify_other, obj_frame_buffer_other, obj_sys_init_other by done.
    rewrite obj_modify_other by done.
    unfold obj. simpl. by rewrite lookup_total_app_l.
  - unfold createStateFromFunction. simpl.
    destruct (instance_of_State f); simpl.
    + unfold createStateFromInstance. simpl.
      rewrite obj_frame_buffer_other, obj_sys_init_other by done.
      rewrite !obj_modify_other by done.
      unfold obj. simpl. by rewrite lookup_total_app_l.
    + unfold setupCallbacks.
      rewrite obj_modify_other, obj_frame_buffer_other, obj_sys_init_other by done.
      rewrite !obj_modify_other by done.
      unfold obj. simpl. by rewrite lookup_total_app_l.
Qed.

Lemma adapted_valid key stateConfig w :
  well_formed stateConfig w ->
  (fst (adapted key stateConfig w)
   < length (objs (snd (adapted key stateConfig w))))%nat.
Proof.
  intros Hwf. rewrite adapted_ref, adapted_length.
  destruct stateConfig; simpl in *; lia.
Qed.

Lemma adapted_settings key stateConfig w :
  well_formed stateConfig w ->
  settings_key (obj (fst (adapted key stateConfig w))
                  (snd (adapted key stateConfig w))) = key
  /\ settings_active (obj (fst (adapted key stateConfig w))
                        (snd (adapted key stateConfig w)))
     = source_active stateConfig w.
Proof.
  intros Hwf. destruct stateConfig as [i|c|f]; simpl in *.
  - unfold createStateFromInstance. simpl.
    rewrite !(stable_frame_buffer _ stable_settings_key),
      !(stable_frame_buffer _ stable_settings_active),
      !(stable_sys_init _ stable_settings_key),
      !(stable_sys_init _ stable_settings_active).
    rewrite (proj_modify settings_active) by done.
    rewrite (proj_modify settings_active) by done.
    rewrite obj_modify_same by (by rewrite length_objs_modify). done.
  - unfold createStateFromObject, setupCallbacks. simpl.
    rewrite (proj_modify settings_key), (proj_modify settings_active) by done.
    rewrite !(stable_frame_buffer _ stable_settings_key),
      !(stable_frame_buffer _ stable_settings_active),
      !(stable_sys_init _ stable_settings_key),
      !(stable_sys_init _ stable_settings_active).
    rewrite (proj_modify settings_key), (proj_modify settings_active) by done.
    unfold obj, cfg. simpl.
    rewrite list_lookup_total_middle by done.
    rewrite list_lookup_total_insert_eq by done. done.
  - unfold createStateFromFunction. simpl.
    destruct (instance_of_State f); simpl.
    + unfold createStateFromInstance. simpl.
      rewrite !(stable_frame_buffer _ stable_settings_key),
        !(stable_frame_buffer _ stable_settings_active),
        !(stable_sys_init _ stable_settings_key),
        !(stable_sys_init _ stable_settings_active).
      rewrite (proj_modify settings_active) by done.
      rewrite (proj_modify settings_active) by done.
      rewrite obj_modify_same
        by (rewrite length_objs_modify; simpl; rewrite length_app; simpl; lia).
      split; [done|]. unfold obj. simpl.
      by rewrite list_lookup_total_middle.
    + unfold setupCallbacks.
      rewrite (proj_modify settings_key), (proj_modify settings_active) by done.
      rewrite !(stable_frame_buffer _ stable_settings_key),
        !(stable_frame_buffer _ stable_settings_active),
        !(stable_sys_init _ stable_settings_key),
        !(stable_sys_init _ stable_settings_active).
      rewrite (proj_modify settings_key), (proj_modify settings_active) by done.
      rewrite obj_modify_same
        by (rewrite length_objs_modify; simpl; rewrite length_app; simpl; lia).
      done.
Qed.

Lemma start_other r key w :
  getState key w <> StateObject r -> obj r (fst (start key w)) = obj r w.
Proof.
  intros Hne.
  destruct (isBooted (game w)) eqn:Hb; [|unfold start; by rewrite Hb].
  destruct (getState key w) as [|state|v] eqn:Hs.
  { by rewrite (proj1 (start_not_a_state key w Hb) Hs). }
  2: { by rewrite (proj2 (start_not_a_state key w Hb) v Hs). }
  assert (state <> r) as Hr by congruence.
  rewrite (start_booted key state w Hb Hs). cbn [fst].
  unfold load_reset, call.
  repeat case_match;
    repeat first
      [ progress autorewrite with store
      | rewrite startCreate_other by done
      | rewrite obj_modify_other by done ];
    done.
Qed.

Lemma start_sets_active key state w :
  isBooted (game w) = true ->
  getState key w = StateObject state ->
  (state < length (objs w))%nat ->
  settings_active (obj state (fst (start key w))) = true.
Proof.
  intros Hb Hs Hlt. rewrite (start_booted key state w Hb Hs). simpl.
  destruct (init (obj state w)) as [fi|] eqn:Hi;
    destruct (preload (obj state w)) as [fp|] eqn:Hp;
    destruct (sys_load (obj state w)) as [l|] eqn:Hl.
  all: repeat (progress (obj_simpl; rewrite ?Hi, ?Hl, ?Hp)).
  all: try destruct (Nat.eqb_spec (loads_of fp) 0) as [Hz|Hnz].
  all: repeat (progress (obj_simpl; rewrite ?Hi, ?Hl, ?Hp)).
  all: rewrite ?startCreate_settings_active.
  all: repeat (progress (obj_simpl; rewrite ?Hi, ?Hl, ?Hp)).
  all: done.
Qed.

(** X11.  A post-boot [add] that returns a state has appended exactly that
    state to the state list and made it what the resolved key yields: as a
    new own property of the key object, or, for the key '__proto__', as its
    prototype, with the own properties as they were.  The States that the
    other keys yield are the same as before, and every other State object
    is as it was.  The key in the settings of the new state is the resolved
    key.  On return its [settings.active] is set exactly when autoStart was
    passed as true or the source itself was flagged active; when neither is
    the case the active list is as it was. *)
Theorem add_registers_one_state key stateConfig autoStart w w' newState :
  isBooted (game w) = true ->
  well_formed stateConfig w ->
  add key stateConfig autoStart w = (w', Return (Some newState)) ->
  states w' = states w ++ [newState]
  /\ getState (effective_key key stateConfig w) w' = StateObject newState
  /\ (effective_key key stateConfig w <> "__proto__"%string ->
      keys w' = <[effective_key key stateConfig w := newState]> (keys w)
      /\ keys_proto w' = keys_proto w)
  /\ (effective_key key stateConfig w = "__proto__"%string ->
      keys w' = keys w /\ keys_proto w' = Some newState)
  /\ (forall k r, k <> effective_key key stateConfig w ->
        getState k w' = StateObject r <-> getState k w = StateObject r)
  /\ (forall r, (r < length (objs w))%nat -> r <> newState ->
                obj r w' = obj r w)
  /\ settings_key (obj newState w') = effective_key key stateConfig w
  /\ settings_active (obj newState w')
     = default false autoStart || source_active stateConfig w
  /\ (default false autoStart || source_active stateConfig w = false ->
      active w' = active w).
Proof.
  intros Hb Hwf Hadd.
  destruct (getKey_cases key stateConfig w) as [[e Hget]|(Hget & Hfree & _)].
  { rewrite (add_rejected key stateConfig autoStart w e Hb Hget) in Hadd.
    discriminate. }
  destruct (add_booted_fields key stateConfig autoStart w Hb Hget)
    as (_ & Hkeys & Hproto & Hstates & _).
  rewrite Hadd in Hkeys, Hproto, Hstates. cbn [fst] in Hkeys, Hproto, Hstates.
  rewrite (add_booted key stateConfig autoStart w Hb Hget) in Hadd.
  set (k := effective_key key stateConfig w) in *.
  destruct (adapted_frame k stateConfig w) as (Hg & Hks & _ & Hact & _).
  destruct (adapted_settings k stateConfig w Hwf) as [Hskey Hsact].
  pose proof (adapted_valid k stateConfig w Hwf) as Hvalid.
  pose proof (obj_adapted_other k stateConfig) as Hother.
  set (n := fst (adapted k stateConfig w)) in *.
  set (w1 := snd (adapted k stateConfig w)) in *.
  set (w2 := set_states _ _) in Hadd.
  assert (forall r, obj r w2 = obj r w1) as Hn.
  { intros r. unfold w2. by autorewrite with store. }
  rewrite Hn, Hsact in Hadd.
  injection Hadd as Hw' Hnew. subst newState.
  assert (getState k w2 = StateObject n) as Hreg.
  { change (getState k w2) with (getState k (keys_put k n w1)).
    apply getState_keys_put. by rewrite Hks. }
  assert (isBooted (game w2) = true) as Hb2.
  { unfold w2. simpl. by rewrite (proj1 (keys_put_frame _ _ _)), Hg. }
  assert (active w2 = active w) as Hact2.
  { unfold w2. simpl.
    by rewrite (proj1 (proj2 (proj2 (keys_put_frame _ _ _)))). }
  assert (forall k' r, getState k' w' = StateObject r
                       <-> getState k' (keys_put k n w) = StateObject r)
    as Hread.
  { intros k' r. rewrite !getState_StateObject. by rewrite Hkeys, Hproto. }
  split; [done|].
  split; [apply Hread; by apply getState_keys_put|].
  split.
  { intros Hk. rewrite Hkeys, Hproto. unfold keys_put.
    by rewrite decide_False. }
  split.
  { intros Hk. rewrite Hkeys, Hproto. unfold keys_put.
    by rewrite decide_True. }
  split.
  { intros k' r Hne. rewrite Hread, !getState_StateObject. unfold keys_put.
    case_decide as Hk; simpl.
    - split; (intros [?|(? & -> & ?)]; [by left|congruence]).
    - by rewrite lookup_insert_ne. }
  destruct (default false autoStart || source_active stateConfig w) eqn:Hc;
    subst w'.
  - split.
    { intros r Hr Hne. rewrite start_other by congruence.
      rewrite Hn. by apply Hother. }
    split; [by rewrite settings_key_start, Hn|].
    split; [|done].
    apply (start_sets_active k n w2 Hb2 Hreg).
    unfold w2. simpl. by rewrite (proj1 (proj2 (proj2 (proj2 (proj2 (proj2
                                   (keys_put_frame _ _ _))))))).
  - split.
    { intros r Hr Hne. rewrite Hn. by apply Hother. }
    split; [by rewrite Hn|]. split; [|done].
    rewrite Hn, Hsact. by apply orb_false_elim in Hc as [_ ->].
Qed.

Lemma add_registers_one_state_witness :
  isBooted (game A_added) = true
  /\ well_formed (SrcObject 1%nat) A_added
  /\ add (Some "B"%string) (SrcObject 1%nat) (Some true) A_added
     = (fst (add (Some "B"%string) (SrcObject 1%nat) (Some true) A_added),
        Return (Some 1%nat))
  /\ states (fst (add (Some "B"%string) (SrcObject 1%nat) (Some true) A_added))
     = states A_added ++ [1%nat].
Proof.
  assert (isBooted (game A_added) = true) as Hb by (vm_compute; reflexivity).
  assert (well_formed (SrcObject 1%nat) A_added) as Hwf by (vm_compute; lia).
  assert (add (Some "B"%string) (SrcObject 1%nat) (Some true) A_added
          = (fst (add (Some "B"%string) (SrcObject 1%nat) (Some true) A_added),
             Return (Some 1%nat))) as Hadd by (vm_compute; reflexivity).
  split; [exact Hb|]. split; [exact Hwf|]. split; [exact Hadd|].
  exact (proj1 (add_registers_one_state
                  (Some "B"%string) (SrcObject 1%nat) (Some true) A_added
                  _ 1%nat Hb Hwf Hadd)).
Defined.

(** X12.  For a source that is not flagged active and a resolved key that
    yields no State yet, a post-boot [add(key, source, true)] does what
    [add(key, source)] followed by [start] on the resolved key does, also
    when the key check throws. *)
Theorem add_autoStart_is_add_then_start key stateConfig w :
  isBooted (game w) = true ->
  well_formed stateConfig w ->
  (forall state,
     getState (effective_key key stateConfig w) w <> StateObject state) ->
  source_active stateConfig w = false ->
  add key stateConfig (Some true) w
  = (fst (start (effective_key key stateConfig w)
            (fst (add key stateConfig None w))),
     snd (add key stateConfig None w)).
Proof.
  intros Hb Hwf Hk Hsrc.
  destruct (getKey_cases key stateConfig w) as [[e Hget]|(Hget & _)].
  { rewrite !(add_rejected key stateConfig _ w e Hb Hget). cbn [fst snd].
    destruct (getState (effective_key key stateConfig w) w) as [|state|v]
      eqn:Hs; [|by destruct (Hk state)|].
    - by rewrite (proj1 (start_not_a_state _ w Hb) Hs).
    - by rewrite (proj2 (start_not_a_state _ w Hb) v Hs). }
  rewrite (add_booted key stateConfig (Some true) w Hb Hget).
  rewrite (add_booted key stateConfig None w Hb Hget).
  destruct (adapted_settings (effective_key key stateConfig w) stateConfig w Hwf)
    as [_ Hsact].
  simpl. autorewrite with store. by rewrite Hsact, Hsrc.
Qed.

Lemma add_autoStart_is_add_then_start_witness :
  isBooted (game three_records) = true
  /\ well_formed (SrcObject 0%nat) three_records
  /\ (forall state,
        getState (effective_key (Some "A"%string) (SrcObject 0%nat)
                    three_records) three_records <> StateObject state)
  /\ source_active (SrcObject 0%nat) three_records = false
  /\ fst (add (Some "A"%string) (SrcObject 0%nat) (Some true) three_records)
     = A_started.
Proof.
  assert (isBooted (game three_records) = true) as Hb by reflexivity.
  assert (well_formed (SrcObject 0%nat) three_records) as Hwf
    by (simpl; lia).
  assert (forall state,
            getState (effective_key (Some "A"%string) (SrcObject 0%nat)
                        three_records) three_records <> StateObject state)
    as Hk by (intros state; vm_compute; discriminate).
  assert (source_active (SrcObject 0%nat) three_records = false) as Hsrc
    by reflexivity.
  split; [exact Hb|]. split; [exact Hwf|]. split; [exact Hk|].
  split; [exact Hsrc|].
  rewrite (add_autoStart_is_add_then_start
             (Some "A"%string) (SrcObject 0%nat) three_records Hb Hwf Hk Hsrc).
  vm_compute. reflexivity.
Defined.

(** ** Duplicate keys *)

(** X24.  After boot, an [add] whose resolved key is an own key of the key
    object (a key other than '__proto__' that yields a State) throws the
    duplicate-key error, as long as no State is registered as
    'hasOwnProperty'; once one is, every [add] throws a TypeError instead,
    duplicate or not.  In both cases the world is exactly as it was: the
    key object, the state list, the active list, the stores and the log. *)
Theorem add_duplicate_key_rejected key stateConfig autoStart w :
  isBooted (game w) = true ->
  (forall state,
     getState (effective_key key stateConfig w) w = StateObject state ->
     effective_key key stateConfig w <> "__proto__"%string ->
     (forall s, getState "hasOwnProperty" w <> StateObject s) ->
     add key stateConfig autoStart w
     = (w, Throw (DuplicateKey (effective_key key stateConfig w))))
  /\ (forall s,
        getState "hasOwnProperty" w = StateObject s ->
        add key stateConfig autoStart w = (w, Throw TypeError)).
Proof.
  intros Hb. split.
  - intros state Hs Hk Hown. apply add_rejected; [done|].
    apply getState_StateObject in Hs as [Hs|(_ & ? & _)]; [|done].
    rewrite getKey_spec, Hs.
    destruct (keys w !! "hasOwnProperty"%string) as [s|] eqn:Hh; [|done].
    destruct (Hown s). by apply getState_own.
  - intros s Hs. apply add_rejected; [done|].
    apply getState_StateObject in Hs as [Hs|(_ & ? & _)]; [|done].
    by rewrite getKey_spec, Hs.
Qed.

Lemma add_duplicate_key_rejected_witness :
  isBooted (game A_added) = true
  /\ add (Some "A"%string) (SrcObject 1%nat) (Some true) A_added
     = (A_added, Throw (DuplicateKey "A")).
Proof.
  assert (isBooted (game A_added) = true) as Hb by (vm_compute; reflexivity).
  split; [exact Hb|].
  apply (proj1 (add_duplicate_key_rejected
                  (Some "A"%string) (SrcObject 1%nat) (Some true) A_added Hb)
           0%nat).
  - vm_compute; reflexivity.
  - vm_compute; discriminate.
  - intros s. vm_compute. discriminate.
Defined.
(** ** The constructor and boot *)

Lemma boot_loop_S fuel i w :
  boot_loop (S fuel) i w
  = match _pending w !! i with
    | None => Some (set_pending [] w, Return tt)
    | Some entry =>
        match add (p_key entry) (p_state entry) (Some (p_autoStart entry)) w with
        | (w, Throw e) => Some (w, Throw e)
        | (w, Return _) => boot_loop fuel (S i) w
        end
    end.
Proof. reflexivity. Qed.

Lemma keyless_effective_key stateConfig w :
  keyless stateConfig w ->
  effective_key (Some "default"%string) stateConfig w = "default"%string.
Proof.
  destruct stateConfig as [r|c|f]; simpl; [done| |done]. by intros ->.
Qed.

Lemma keyless_after_first s0 s1 w w1 :
  cfgs w1
  = match s0 with
    | SrcObject c0 => <[c0 := with_cfg_key "default" (cfg c0 w)]> (cfgs w)
    | _ => cfgs w
    end ->
  keyless s0 w -> keyless s1 w ->
  effective_key (Some "default"%string) s1 w1 = "default"%string.
Proof.
  intros Hcfgs H0 H1.
  destruct s1 as [r1|c1|f1]; [done| |done].
  unfold effective_key, keyless in *. unfold cfg at 1. rewrite Hcfgs.
  destruct s0 as [r0|c0|f0]; [done| |].
  - rewrite list_lookup_total_insert. case_decide; [done|].
    change (cfgs w !!! c1) with (cfg c1 w). by rewrite H1.
  - change (cfgs w !!! c1) with (cfg c1 w). by rewrite H1.
Qed.

(** X13.  A manager built from an array whose first two sources carry no
    key of their own cannot boot: the constructor queues every source under
    the key 'default', so the replay registers the first and throws the
    duplicate-key error on the second.  The first state stays registered
    and the queue stays as it was. *)
Theorem constructor_array_without_keys_fails_at_boot g o c s0 s1 l fuel :
  keyless s0 (StateManager g o c (ArrayStateConfig (s0 :: s1 :: l))) ->
  keyless s1 (StateManager g o c (ArrayStateConfig (s0 :: s1 :: l))) ->
  (2 <= fuel)%nat ->
  exists w',
    boot fuel (game_booted (StateManager g o c (ArrayStateConfig (s0 :: s1 :: l))))
    = Some (w', Throw (DuplicateKey "default"))
    /\ _pending w'
       = _pending (StateManager g o c (ArrayStateConfig (s0 :: s1 :: l)))
    /\ length (states w') = 1%nat
    /\ exists state, getState "default" w' = StateObject state.
Proof.
  intros H0 H1 Hfuel.
  destruct fuel as [|[|fuel]]; [lia..|].
  set (w := game_booted (StateManager g o c (ArrayStateConfig (s0 :: s1 :: l)))).
  assert (isBooted (game w) = true) as Hb by reflexivity.
  assert (effective_key (Some "default"%string) s0 w = "default"%string) as Hk0
    by (by apply keyless_effective_key).
  assert (getKey (Some "default"%string) s0 w
          = Return (effective_key (Some "default"%string) s0 w)) as Hget
    by (apply getKey_returns; apply lookup_empty).
  destruct (add_booted_fields (Some "default"%string) s0 (Some true) w Hb Hget)
    as (Hret & Hkeys & _ & Hstates & Hcfgs & Hpend & Hgame & _).
  destruct (adapted_frame (effective_key (Some "default"%string) s0 w) s0 w)
    as (_ & _ & _ & _ & _ & Hcf).
  rewrite Hcf, Hk0 in Hcfgs. rewrite Hk0 in Hkeys.
  assert (forall n, keys (keys_put "default" n w)
                    = <["default"%string := n]> (keys w)) as Hput
    by (intros n; unfold keys_put; by rewrite decide_False).
  rewrite Hput in Hkeys.
  unfold boot. rewrite boot_loop_S.
  change (_pending w !! 0%nat)
    with (Some {| p_index := 0; p_key := Some "default"%string;
                  p_state := s0; p_autoStart := true |}).
  cbn [p_key p_state p_autoStart].
  destruct (add (Some "default"%string) s0 (Some true) w) as [w1 out] eqn:Hadd.
  cbn [fst snd] in *. subst out.
  rewrite boot_loop_S, Hpend.
  change (_pending w !! 1%nat)
    with (Some {| p_index := 1; p_key := Some "default"%string;
                  p_state := s1; p_autoStart := false |}).
  cbn [p_key p_state p_autoStart].
  assert (effective_key (Some "default"%string) s1 w1 = "default"%string) as Hk1
    by (by apply (keyless_after_first s0 s1 w w1)).
  assert (add (Some "default"%string) s1 (Some false) w1
          = (w1, Throw (DuplicateKey "default"))) as ->.
  { apply add_rejected; [by rewrite Hgame|].
    rewrite getKey_spec, Hk1, Hkeys.
    rewrite lookup_insert_ne by done.
    change (keys w) with (∅ : gmap string ref).
    by rewrite lookup_empty, lookup_insert_eq. }
  exists w1. split; [done|]. split; [exact Hpend|].
  split; [by rewrite Hstates|].
  eexists. apply getState_own. rewrite Hkeys. apply lookup_insert_eq.
Qed.

Lemma constructor_array_without_keys_fails_at_boot_witness :
  keyless (SrcObject 0%nat)
    (StateManager (a_game false) [] [blank_Config; blank_Config]
       (ArrayStateConfig [SrcObject 0%nat; SrcObject 1%nat]))
  /\ keyless (SrcObject 1%nat)
       (StateManager (a_game false) [] [blank_Config; blank_Config]
          (ArrayStateConfig [SrcObject 0%nat; SrcObject 1%nat]))
  /\ (2 <= 3)%nat
  /\ exists w',
       boot 3 (game_booted
                 (StateManager (a_game false) [] [blank_Config; blank_Config]
                    (ArrayStateConfig [SrcObject 0%nat; SrcObject 1%nat])))
       = Some (w', Throw (DuplicateKey "default"))
       /\ _pending w'
          = _pending
              (StateManager (a_game false) [] [blank_Config; blank_Config]
                 (ArrayStateConfig [SrcObject 0%nat; SrcObject 1%nat]))
       /\ length (states w') = 1%nat
       /\ exists state, getState "default" w' = StateObject state.
Proof.
  assert (keyless (SrcObject 0%nat)
            (StateManager (a_game false) [] [blank_Config; blank_Config]
               (ArrayStateConfig [SrcObject 0%nat; SrcObject 1%nat]))) as H0
    by reflexivity.
  assert (keyless (SrcObject 1%nat)
            (StateManager (a_game false) [] [blank_Config; blank_Config]
               (ArrayStateConfig [SrcObject 0%nat; SrcObject 1%nat]))) as H1
    by reflexivity.
  assert (2 <= 3)%nat as Hfuel by lia.
  split; [exact H0|]. split; [exact H1|]. split; [exact Hfuel|].
  exact (constructor_array_without_keys_fails_at_boot
           (a_game false) [] [blank_Config; blank_Config]
           (SrcObject 0%nat) (SrcObject 1%nat) [] 3%nat H0 H1 Hfuel).
Defined.

Lemma boot_one_autoStart_entry w entry fuel :
  isBooted (game w) = true ->
  _pending w = [entry] ->
  p_autoStart entry = true ->
  well_formed (p_state entry) w ->
  keys w !! effective_key (p_key entry) (p_state entry) w = None ->
  keys w !! "hasOwnProperty"%string = None ->
  (2 <= fuel)%nat ->
  exists w' state,
    boot fuel w = Some (w', Return tt)
    /\ _pending w' = []
    /\ states w' = states w ++ [state]
    /\ getState (effective_key (p_key entry) (p_state entry) w) w'
       = StateObject state
    /\ settings_active (obj state w') = true.
Proof.
  intros Hb Hq Hauto Hwf Hfree Hown Hfuel.
  destruct fuel as [|[|fuel]]; [lia..|].
  destruct entry as [idx key s auto]. simpl in *. subst auto.
  pose proof (getKey_returns key s w Hown Hfree) as Hget.
  set (k := effective_key key s w) in *.
  destruct (add_booted_fields key s (Some true) w Hb Hget)
    as (Hret & Hkeys & Hproto & Hstates & _ & Hpend & Hgame & _).
  pose proof (add_booted key s (Some true) w Hb Hget) as Hadd.
  cbv zeta in Hadd. fold k in Hadd, Hkeys, Hproto.
  pose proof (adapted_valid k s w Hwf) as Hvalid.
  destruct (adapted_frame k s w) as (Hg1 & Hks1 & _).
  set (n := fst (adapted k s w)) in *.
  set (w1 := snd (adapted k s w)) in *.
  set (w2 := set_states _ _) in Hadd.
  change (default false (Some true) || settings_active (obj n w2))
    with true in Hadd.
  assert (settings_active (obj n (fst (start k w2))) = true) as Hactive.
  { apply start_sets_active.
    - unfold w2. simpl. by rewrite (proj1 (keys_put_frame _ _ _)), Hg1.
    - change (getState k w2) with (getState k (keys_put k n w1)).
      apply getState_keys_put. by rewrite Hks1.
    - unfold w2. simpl.
      by rewrite (proj1 (proj2 (proj2 (proj2 (proj2 (proj2
                    (keys_put_frame _ _ _))))))). }
  unfold boot. rewrite boot_loop_S, Hq.
  change ([ {| p_index := idx; p_key := key; p_state := s;
               p_autoStart := true |} ] !! 0%nat)
    with (Some {| p_index := idx; p_key := key; p_state := s;
                  p_autoStart := true |}).
  cbn [p_key p_state p_autoStart].
  rewrite Hadd in Hkeys, Hproto, Hstates, Hpend, Hgame |- *.
  cbn [fst snd] in *.
  rewrite boot_loop_S, Hpend, Hq.
  change ([ {| p_index := idx; p_key := key; p_state := s;
               p_autoStart := true |} ] !! 1%nat) with (@None Pending).
  cbn iota.
  exists (set_pending [] (fst (start k w2))), n.
  split; [done|]. split; [done|].
  split; [exact Hstates|].
  split; [|exact Hactive].
  pose proof (getState_keys_put k n w Hfree) as Hput.
  apply getState_StateObject in Hput. apply getState_StateObject.
  cbn [keys keys_proto set_pending]. by rewrite Hkeys, Hproto.
Qed.

(** X14.  A manager built from a single well-formed source boots: the
    replay registers the state under the key of the source, or under
    'default' when the source carries none, and, the constructor having
    queued it with autoStart, starts it; the queue is empty afterwards. *)
Theorem constructor_single_config_boots g o c s fuel :
  well_formed s (StateManager g o c (OneStateConfig s)) ->
  (2 <= fuel)%nat ->
  exists w' state,
    boot fuel (game_booted (StateManager g o c (OneStateConfig s)))
    = Some (w', Return tt)
    /\ _pending w' = []
    /\ states w' = [state]
    /\ getState (effective_key (Some "default"%string) s
                   (StateManager g o c (OneStateConfig s))) w'
       = StateObject state
    /\ settings_active (obj state w') = true.
Proof.
  intros Hwf Hfuel.
  set (w := game_booted (StateManager g o c (OneStateConfig s))).
  set (entry := {| p_index := 0; p_key := Some "default"%string;
                   p_state := s; p_autoStart := true |}).
  assert (keys w !! effective_key (p_key entry) (p_state entry) w = None)
    as Hfree by apply lookup_empty.
  assert (keys w !! "hasOwnProperty"%string = None) as Hown
    by apply lookup_empty.
  destruct (boot_one_autoStart_entry w entry fuel) as (w' & state & H);
    [reflexivity|reflexivity|reflexivity|exact Hwf|exact Hfree|exact Hown
    |exact Hfuel|].
  exists w', state. exact H.
Qed.

Lemma constructor_single_config_boots_witness :
  well_formed (SrcObject 0%nat)
    (StateManager (a_game false) [] [loading_record]
       (OneStateConfig (SrcObject 0%nat)))
  /\ (2 <= 2)%nat
  /\ exists w' state,
       boot 2 (game_booted
                 (StateManager (a_game false) [] [loading_record]
                    (OneStateConfig (SrcObject 0%nat))))
       = Some (w', Return tt)
       /\ _pending w' = []
       /\ states w' = [state]
       /\ getState (effective_key (Some "default"%string) (SrcObject 0%nat)
                      (StateManager (a_game false) [] [loading_record]
                         (OneStateConfig (SrcObject 0%nat)))) w'
          = StateObject state
       /\ settings_active (obj state w') = true.
Proof.
  assert (well_formed (SrcObject 0%nat)
            (StateManager (a_game false) [] [loading_record]
               (OneStateConfig (SrcObject 0%nat)))) as Hwf by (simpl; lia).
  assert (2 <= 2)%nat as Hfuel by lia.
  split; [exact Hwf|]. split; [exact Hfuel|].
  exact (constructor_single_config_boots (a_game false) [] [loading_record]
           (SrcObject 0%nat) 2%nat Hwf Hfuel).
Defined.

(** X15.  A start requested before boot is carried out at boot: on a
    manager with an empty queue and an empty registry, [add(key, source)]
    followed by [start(key)], both before boot, leaves one queued entry
    marked for start, and the replay at boot registers the state and starts
    it. *)
Theorem start_before_boot_is_carried_out_at_boot w key s fuel :
  isBooted (game w) = false ->
  _pending w = [] ->
  keys w = ∅ ->
  well_formed s w ->
  (2 <= fuel)%nat ->
  exists w' state,
    boot fuel (game_booted (fst (start key (fst (add (Some key) s None w)))))
    = Some (w', Return tt)
    /\ _pending w' = []
    /\ states w' = states w ++ [state]
    /\ getState (effective_key (Some key) s w) w' = StateObject state
    /\ settings_active (obj state w') = true.
Proof.
  intros Hb Hq Hk Hwf Hfuel.
  set (wq := game_booted (fst (start key (fst (add (Some key) s None w))))).
  set (entry := {| p_index := 0; p_key := Some key; p_state := s;
                   p_autoStart := true |}).
  assert (_pending wq = [entry]) as Hq'.
  { subst wq. unfold add. rewrite Hb. cbn [negb fst].
    rewrite start_unbooted by exact Hb. simpl. rewrite Hq. simpl.
    by rewrite decide_True. }
  assert (keys wq = keys w /\ cfgs wq = cfgs w /\ objs wq = objs w
          /\ states wq = states w) as (Hkeys & Hcfgs & Hobjs & Hstates).
  { subst wq. unfold add. rewrite Hb. cbn [negb fst].
    rewrite start_unbooted by exact Hb. done. }
  assert (effective_key (Some key) s wq = effective_key (Some key) s w) as Heff.
  { unfold effective_key, obj, cfg. by rewrite Hcfgs, Hobjs. }
  destruct (boot_one_autoStart_entry wq entry fuel) as (w' & state & H).
  - reflexivity.
  - exact Hq'.
  - reflexivity.
  - unfold entry. cbn [p_state]. unfold well_formed in *.
    destruct s; by rewrite ?Hcfgs, ?Hobjs.
  - unfold entry. cbn [p_key p_state]. rewrite Hkeys, Hk. apply lookup_empty.
  - rewrite Hkeys, Hk. apply lookup_empty.
  - exact Hfuel.
  - exists w', state. unfold entry in H. cbn [p_key p_state] in H.
    by rewrite Heff, Hstates in H.
Qed.

Lemma start_before_boot_is_carried_out_at_boot_witness :
  exists w' state,
    boot 2 (game_booted
              (fst (start "A"
                      (fst (add (Some "A"%string) (SrcObject 0%nat) None
                              (StateManager (a_game false) [] [blank_Config]
                                 NoStateConfig))))))
    = Some (w', Return tt)
    /\ settings_active (obj state w') = true.
Proof.
  set (w := StateManager (a_game false) [] [blank_Config] NoStateConfig).
  assert (isBooted (game w) = false) as Hb by reflexivity.
  assert (_pending w = []) as Hq by reflexivity.
  assert (keys w = ∅) as Hk by reflexivity.
  assert (well_formed (SrcObject 0%nat) w) as Hwf by (simpl; lia).
  assert (2 <= 2)%nat as Hfuel by lia.
  destruct (start_before_boot_is_carried_out_at_boot
              w "A"%string (SrcObject 0%nat) 2%nat Hb Hq Hk Hwf Hfuel)
    as (w' & state & Hboot & _ & _ & _ & Hact).
  exists w', state. split; [exact Hboot|exact Hact].
Defined.

(** ** Isolation of the State objects *)

(** X16.  [start(key)] changes no State object other than the one the key
    yields; [loadComplete] and [startCreate] change none other than their
    own; [step] changes no State object at all. *)
Theorem operations_touch_one_object r w :
  (forall key, getState key w <> StateObject r ->
               obj r (fst (start key w)) = obj r w)
  /\ (forall state, r <> state -> obj r (startCreate state w) = obj r w)
  /\ (forall state, r <> state -> obj r (loadComplete state w) = obj r w)
  /\ (forall timestamp, obj r (step timestamp w) = obj r w).
Proof.
  split; [intros key Hne; by apply start_other|].
  split; [intros state Hne; by apply startCreate_other|].
  split.
  - intros state Hne. unfold loadComplete.
    rewrite startCreate_other by done.
    destruct (loadUpdate (obj state w)); [|done].
    unfold call. by rewrite obj_modify_other.
  - intros timestamp. unfold obj. by rewrite (proj1 (step_frame timestamp w)).
Qed.

Lemma identity_add r key stateConfig autoStart w :
  (r < length (objs w))%nat ->
  identity (obj r (fst (add key stateConfig autoStart w))) = identity (obj r w).
Proof.
  intros Hr.
  destruct (isBooted (game w)) eqn:Hb; [|unfold add; by rewrite Hb].
  destruct (getKey_cases key stateConfig w) as [[e Hget]|(Hget & _)].
  { by rewrite (add_rejected key stateConfig autoStart w e Hb Hget). }
  rewrite (add_booted key stateConfig autoStart w Hb Hget). cbn [fst].
  set (k := effective_key key stateConfig w).
  assert (identity (obj r (snd (adapted k stateConfig w))) = identity (obj r w))
    as Had.
  { destruct (decide (r = fst (adapted k stateConfig w))) as [Heq|Hne];
      [|by rewrite obj_adapted_other].
    rewrite adapted_ref in Heq.
    destruct stateConfig as [i|c|f]; [subst i|lia..].
    simpl. unfold createStateFromInstance. simpl.
    rewrite (stable_frame_buffer _ stable_identity),
      (stable_sys_init _ stable_identity).
    rewrite obj_modify_same by (by rewrite length_objs_modify).
    rewrite obj_modify_same by done.
    unfold identity, k. simpl. by destruct (obj r w). }
  destruct (_ || _).
  - rewrite (stable_start _ stable_identity) by done.
    autorewrite with store. exact Had.
  - autorewrite with store. exact Had.
Qed.

(** X17.  Once a State object exists, the manager never rewrites its key
    or its callbacks: [start], [startCreate], [loadComplete], [pause],
    [step] and [add] (of whatever source, the object itself included) leave
    [settings.key] and all hooks of every existing object as they were. *)
Theorem key_and_hooks_are_never_rewritten r w :
  (forall key, identity (obj r (fst (start key w))) = identity (obj r w))
  /\ (forall state, identity (obj r (startCreate state w)) = identity (obj r w))
  /\ (forall state, identity (obj r (loadComplete state w)) = identity (obj r w))
  /\ (forall key, identity (obj r (fst (pause key w))) = identity (obj r w))
  /\ (forall timestamp, identity (obj r (step timestamp w)) = identity (obj r w))
  /\ (forall key stateConfig autoStart,
        (r < length (objs w))%nat ->
        identity (obj r (fst (add key stateConfig autoStart w)))
        = identity (obj r w)).
Proof.
  split; [intros key; by apply (stable_start _ stable_identity)|].
  split; [intros state; apply (stable_startCreate _ stable_identity)|].
  split; [intros state; apply (stable_loadComplete _ stable_identity)|].
  split; [intros key; by apply (stable_pause identity)|].
  split; [intros timestamp; apply (stable_step identity)|].
  intros key stateConfig autoStart Hr. by apply identity_add.
Qed.

(** ** createStateFrameBuffer *)

Lemma obj_createStateFrameBuffer newState w :
  (newState < length (objs w))%nat ->
  let s := obj newState w in
  let width :=
    if settings_width s =? -1 then config_width (game w) else settings_width s in
  let height :=
    if settings_height s =? -1 then config_height (game w)
    else settings_height s in
  obj newState (createStateFrameBuffer newState w)
  = with_sys_fbo (Some (settings_x s, settings_y s, width, height))
      (with_settings_size width height s).
Proof.
  intros Hlt s width height. unfold createStateFrameBuffer.
  rewrite obj_modify_same by (simpl; rewrite ?length_insert; done).
  autorewrite with store. by rewrite obj_modify_same.
Qed.

Lemma length_createStateFrameBuffer newState w :
  length (objs (createStateFrameBuffer newState w)) = length (objs w).
Proof.
  unfold createStateFrameBuffer, modify. simpl. by rewrite !length_insert.
Qed.

(** X18.  [createStateFrameBuffer] replaces a width or height of -1 in the
    settings by the configured size of the game and keeps any other size;
    it asks the renderer once for a target at the position of the settings
    and with the resulting size, and stores it in [sys.fbo].  Nothing else
    of the state changes, and a second call asks for the same geometry. *)
Theorem createStateFrameBuffer_geometry newState w :
  (newState < length (objs w))%nat ->
  let s := obj newState w in
  let s' := obj newState (createStateFrameBuffer newState w) in
  let width :=
    if settings_width s =? -1 then config_width (game w) else settings_width s in
  let height :=
    if settings_height s =? -1 then config_height (game w)
    else settings_height s in
  (settings_width s' = width /\ settings_height s' = height
   /\ settings_x s' = settings_x s /\ settings_y s' = settings_y s)
  /\ sys_fbo s' = Some (settings_x s, settings_y s, width, height)
  /\ log (createStateFrameBuffer newState w)
     = log w ++ [CreateFBO newState (settings_x s) (settings_y s) width height]
  /\ (identity s' = identity s /\ settings_active s' = settings_active s
      /\ sys_load s' = sys_load s)
  /\ (config_width (game w) <> -1 -> settings_width s' <> -1)
  /\ (config_height (game w) <> -1 -> settings_height s' <> -1)
  /\ sys_fbo (obj newState (createStateFrameBuffer newState
                              (createStateFrameBuffer newState w)))
     = sys_fbo s'.
Proof.
  intros Hlt s s' width height.
  assert (s' = with_sys_fbo (Some (settings_x s, settings_y s, width, height))
                 (with_settings_size width height s)) as Hs'
    by (by apply obj_createStateFrameBuffer).
  rewrite (obj_createStateFrameBuffer newState
             (createStateFrameBuffer newState w))
    by (by rewrite length_createStateFrameBuffer).
  fold s'. rewrite Hs'. simpl.
  split; [done|]. split; [done|]. split; [done|].
  split; [by destruct s|].
  split.
  { intros Hc. subst width.
    by destruct (Z.eqb_spec (settings_width s) (-1)). }
  split.
  { intros Hc. subst height.
    by destruct (Z.eqb_spec (settings_height s) (-1)). }
  f_equal. f_equal; [f_equal|].
  - destruct (Z.eqb_spec width (-1)) as [Hw|]; [|done].
    subst width. destruct (Z.eqb_spec (settings_width s) (-1)); congruence.
  - destruct (Z.eqb_spec height (-1)) as [Hh|]; [|done].
    subst height. destruct (Z.eqb_spec (settings_height s) (-1)); congruence.
Qed.

Lemma createStateFrameBuffer_geometry_witness :
  (0 < length (objs A_added))%nat
  /\ sys_fbo (obj 0%nat (createStateFrameBuffer 0%nat A_added))
     = Some (0, 0, 800, 600).
Proof.
  assert (0 < length (objs A_added))%nat as Hlt by (vm_compute; lia).
  split; [exact Hlt|].
  etransitivity;
    [exact (proj1 (proj2 (createStateFrameBuffer_geometry 0%nat A_added Hlt)))|].
  vm_compute. reflexivity.
Defined.

(** ** The registry in reachable worlds *)

Lemma filter_ext_in {A} (P Q : A -> Prop) `{!forall x, Decision (P x)}
    `{!forall x, Decision (Q x)} (l : list A) :
  (forall x, x ∈ l -> P x <-> Q x) -> filter P l = filter Q l.
Proof.
  induction l as [|x l IH]; intros Hext; [done|].
  rewrite !filter_cons.
  assert (filter P l = filter Q l) as ->.
  { apply IH. intros y Hy. apply Hext. by right. }
  assert (P x <-> Q x) as Hx by (apply Hext; by left).
  destruct (decide (P x)), (decide (Q x)); tauto.
Qed.

Lemma named_frame w w' :
  states w' = states w ->
  (forall r, r ∈ states w ->
             settings_key (obj r w') = settings_key (obj r w)) ->
  named w' = named w.
Proof.
  intros Hs Ho. unfold named. rewrite Hs.
  apply filter_ext_in. intros r Hr. by rewrite Ho.
Qed.

Lemma registry_ok_frame w w' :
  keys w' = keys w -> keys_proto w' = keys_proto w ->
  states w' = states w ->
  length (objs w') = length (objs w) ->
  (forall r, settings_key (obj r w') = settings_key (obj r w)) ->
  registry_ok w -> registry_ok w'.
Proof.
  intros Hk Hkp Hs Hlen Ho [Hl Hkd Hpr Hv Hnd Hsz].
  assert (named w' = named w) as Hn by (by apply named_frame).
  split.
  - intros r. rewrite Hk, Hs, Ho. apply Hl.
  - intros k r. rewrite Hk, Hs, Ho. apply Hkd.
  - intros p. rewrite Hkp, Hs, Ho. apply Hpr.
  - intros r. rewrite Hs, Hlen. apply Hv.
  - by rewrite Hn.
  - by rewrite Hk, Hn.
Qed.

(** The State that a post-boot [add] registers, once [add] has returned. *)
Lemma add_booted_object key stateConfig autoStart w :
  isBooted (game w) = true ->
  well_formed stateConfig w ->
  getKey key stateConfig w = Return (effective_key key stateConfig w) ->
  let k := effective_key key stateConfig w in
  let n := fst (adapted k stateConfig w) in
  let w' := fst (add key stateConfig autoStart w) in
  settings_key (obj n w') = k
  /\ (n < length (objs w'))%nat
  /\ (length (objs w) <= length (objs w'))%nat.
Proof.
  intros Hb Hwf Hget k n w'. subst w'.
  rewrite (add_booted key stateConfig autoStart w Hb Hget). fold k n.
  cbn [fst].
  destruct (adapted_settings k stateConfig w Hwf) as [Hskey _].
  pose proof (adapted_valid k stateConfig w Hwf) as Hvalid.
  pose proof (adapted_length k stateConfig w) as Hlen.
  fold n in Hskey, Hvalid.
  set (w2 := set_states _ _).
  assert (objs w2 = objs (snd (adapted k stateConfig w))) as Ho.
  { unfold w2. simpl.
    apply (proj1 (proj2 (proj2 (proj2 (proj2 (proj2
             (keys_put_frame _ _ _))))))). }
  assert (settings_key (obj n w2) = k) as Hk2 by (unfold obj; by rewrite Ho).
  assert (length (objs w) <= length (objs w2))%nat as Hgrow.
  { rewrite Ho, Hlen. destruct stateConfig; lia. }
  assert (n < length (objs w2))%nat as Hn2 by (by rewrite Ho).
  destruct (_ || _).
  - by rewrite settings_key_start, start_length.
  - done.
Qed.

Lemma add_new_state_fresh key stateConfig w :
  registry_ok w -> well_formed stateConfig w ->
  keys w !! effective_key key stateConfig w = None ->
  effective_key key stateConfig w <> "__proto__"%string ->
  fst (adapted (effective_key key stateConfig w) stateConfig w) ∉ states w.
Proof.
  intros [Hl _ _ Hv _ _] Hwf Hfree Hk Hin.
  rewrite adapted_ref in Hin.
  pose proof (Hv _ Hin) as Hlt.
  destruct stateConfig as [i|c|f]; [|lia..].
  simpl in Hfree, Hk. rewrite (Hl i Hin Hk) in Hfree. discriminate.
Qed.

Lemma add_registry_ok key stateConfig autoStart w :
  registry_ok w -> well_formed stateConfig w ->
  registry_ok (fst (add key stateConfig autoStart w)).
Proof.
  intros Hok Hwf.
  destruct (isBooted (game w)) eqn:Hb.
  2: { unfold add. rewrite Hb. simpl. by apply (registry_ok_frame w). }
  destruct (getKey_cases key stateConfig w) as [[e Hget]|(Hget & Hfree & _)].
  { by rewrite (add_rejected key stateConfig autoStart w e Hb Hget). }
  destruct (add_booted_fields key stateConfig autoStart w Hb Hget)
    as (_ & Hkeys & Hproto & Hstates & _).
  destruct (add_booted_object key stateConfig autoStart w Hb Hwf Hget)
    as (Hkey & Hnew & Hgrow).
  pose proof (add_new_state_fresh key stateConfig w Hok Hwf Hfree) as Hfresh.
  set (k := effective_key key stateConfig w) in *.
  set (n := fst (adapted k stateConfig w)) in *.
  set (w' := fst (add key stateConfig autoStart w)) in *.
  destruct Hok as [Hl Hkd Hpr Hv Hnd Hsz].
  assert (forall r, r ∈ states w ->
                    settings_key (obj r w') = settings_key (obj r w)) as Hold.
  { intros r Hin.
    pose proof (identity_add r key stateConfig autoStart w (Hv r Hin)) as Hid.
    unfold identity in Hid. by injection Hid. }
  assert (named w'
          = named w ++ (if decide (k = "__proto__"%string) then [] else [n]))
    as Hnamed.
  { unfold named. rewrite Hstates, filter_app. f_equal.
    - apply filter_ext_in. intros r Hr. by rewrite Hold.
    - rewrite filter_cons, filter_nil, Hkey.
      by destruct (decide (k <> "__proto__"%string)),
           (decide (k = "__proto__"%string)). }
  split.
  - intros r. rewrite Hstates, elem_of_app, list_elem_of_singleton, Hkeys.
    unfold keys_put.
    intros [Hin|Hin] Hne.
    + rewrite Hold in Hne |- * by done.
      pose proof (Hl r Hin Hne) as Hown.
      case_decide; simpl; [done|].
      rewrite lookup_insert_ne; [done|]. congruence.
    + subst r. rewrite Hkey in Hne |- *.
      rewrite decide_False by done. simpl. apply lookup_insert_eq.
  - intros k' r. rewrite Hkeys, Hstates, elem_of_app. unfold keys_put.
    case_decide as Hk; simpl.
    + intros Hown. destruct (Hkd k' r Hown) as (Hin & Hk' & Hne).
      split; [by left|]. by rewrite Hold.
    + destruct (decide (k = k')) as [<-|Hne].
      * rewrite lookup_insert_eq. intros [= <-].
        split; [right; by apply list_elem_of_singleton|done].
      * rewrite lookup_insert_ne by done. intros Hown.
        destruct (Hkd k' r Hown) as (Hin & Hk' & Hne').
        split; [by left|]. by rewrite Hold.
  - intros p. rewrite Hproto, Hstates, elem_of_app. unfold keys_put.
    case_decide as Hk; simpl.
    + intros [= <-]. split; [right; by apply list_elem_of_singleton|].
      by rewrite Hkey.
    + intros Hp. destruct (Hpr p Hp) as [Hin Hk'].
      split; [by left|]. by rewrite Hold.
  - intros r. rewrite Hstates, elem_of_app, list_elem_of_singleton.
    intros [Hin| ->]; [|done]. pose proof (Hv r Hin). lia.
  - rewrite Hnamed. case_decide as Hk; [by rewrite app_nil_r|].
    apply NoDup_app. split; [done|]. split; [|apply NoDup_singleton].
    intros r Hin Hn. apply list_elem_of_singleton in Hn. subst r.
    apply (Hfresh Hk). unfold named in Hin.
    by apply list_elem_of_filter in Hin as [_ Hin].
  - rewrite Hnamed, Hkeys, length_app. unfold keys_put.
    case_decide as Hk; simpl; [lia|].
    rewrite map_size_insert_None by done. lia.
Qed.

Lemma boot_loop_registry_ok fuel : forall i w w' out,
  invariant w -> registry_ok w ->
  boot_loop fuel i w = Some (w', out) -> registry_ok w'.
Proof.
  induction fuel as [|fuel IH]; intros i w w' out Hinv Hok; simpl; [done|].
  destruct (_pending w !! i) as [entry|] eqn:Hi.
  - assert (well_formed (p_state entry) w) as Hwf.
    { apply Hinv. by eapply list_elem_of_lookup_2. }
    pose proof (add_invariant (p_key entry) (p_state entry)
                  (Some (p_autoStart entry)) w Hinv Hwf) as Hinv1.
    pose proof (add_registry_ok (p_key entry) (p_state entry)
                  (Some (p_autoStart entry)) w Hok Hwf) as Hok1.
    destruct (add (p_key entry) (p_state entry) (Some (p_autoStart entry)) w)
      as [w1 [r|e]]; simpl in *.
    + intros Hloop. by eapply IH.
    + by intros [= <- <-].
  - intros [= <- <-]. by apply (registry_ok_frame w).
Qed.

Lemma reachable_registry_ok w : reachable w -> registry_ok w.
Proof.
  induction 1 as [g o c sc Hwf|w Hre IH|fuel w w' out Hre IH Hboot
                 |key sc auto w Hre IH Hwf|key w Hre IH|state w Hre IH
                 |key w Hre IH|ts w Hre IH].
  - split; simpl; try done.
    + intros r Hin. by apply elem_of_nil in Hin.
    + intros r Hin. by apply elem_of_nil in Hin.
    + apply NoDup_nil_2.
  - by apply (registry_ok_frame w).
  - eapply boot_loop_registry_ok; [by apply reachable_invariant|exact IH|].
    exact Hboot.
  - by apply add_registry_ok.
  - destruct (start_frame key w) as (_ & Hk & Hs & _).
    apply (registry_ok_frame w); try done.
    + apply start_keys_proto.
    + apply start_length.
    + intros r. apply settings_key_start.
  - destruct (loadComplete_frame state w) as (_ & Hk & Hkp & Hs & _ & _ & Ho).
    apply (registry_ok_frame w); try done.
    intros r. apply (stable_loadComplete _ stable_settings_key).
  - destruct (pause_frame key w) as (_ & Hk & Hkp & Hs & _ & _ & Ho).
    apply (registry_ok_frame w); try done.
    intros r. by apply (stable_pause settings_key).
  - destruct (step_frame ts w) as (Ho & Hk & _).
    destruct (step_loop ts (active w) w) as (_ & _ & _ & _ & Hs & _).
    apply (registry_ok_frame w); try done.
    + apply step_keys_proto.
    + by rewrite Ho.
    + intros r. unfold obj. by rewrite Ho.
Qed.

(** X19.  In every reachable world the key object and the state list
    describe the same registry.  A key other than '__proto__' yields a
    State exactly when that State is listed and carries the key in its
    settings; what '__proto__' yields, when it is a State, is a listed State
    that carries that key.  The listed States with a key other than
    '__proto__' are listed once, and there are as many of them as the key
    object has own properties.  Every listed State is an object that
    exists. *)
Theorem registry_is_consistent w :
  reachable w ->
  (forall k r,
     k <> "__proto__"%string ->
     getState k w = StateObject r
     <-> r ∈ states w /\ settings_key (obj r w) = k)
  /\ (forall r,
        getState "__proto__" w = StateObject r ->
        r ∈ states w /\ settings_key (obj r w) = "__proto__"%string)
  /\ NoDup (named w)
  /\ size (keys w) = length (named w)
  /\ (forall r, r ∈ states w -> (r < length (objs w))%nat).
Proof.
  intros Hre.
  destruct (reachable_registry_ok w Hre) as [Hl Hkd Hpr Hv Hnd Hsz].
  split; [|split; [|done]].
  - intros k r Hk. rewrite getState_StateObject. split.
    + intros [Hown|(_ & ? & _)]; [|done].
      destruct (Hkd k r Hown) as (Hin & Hkey & _). done.
    + intros [Hin <-]. left. by apply Hl.
  - intros r. rewrite getState_StateObject.
    intros [Hown|(_ & _ & Hp)]; [|by apply Hpr].
    by destruct (Hkd _ r Hown) as (_ & _ & ?).
Qed.

Lemma registry_is_consistent_witness :
  reachable ABC_added
  /\ NoDup (named ABC_added)
  /\ size (keys ABC_added) = length (named ABC_added).
Proof.
  assert (reachable ABC_added) as Hre
    by exact (proj1 (proj2 scenarios_reachable)).
  destruct (registry_is_consistent ABC_added Hre) as (_ & _ & Hnd & Hsz & _).
  split; [exact Hre|]. split; [exact Hnd|exact Hsz].
Defined.
(** ** Registration indices *)

Lemma indexOf_from_app_old l l' x i :
  x ∈ l -> indexOf_from (l ++ l') x i = indexOf_from l x i.
Proof.
  revert i. induction l as [|y l IH]; intros i Hin; simpl.
  - by apply elem_of_nil in Hin.
  - destruct (Nat.eqb_spec y x) as [|Hne]; [done|].
    apply IH. apply elem_of_cons in Hin as [->|Hin]; done.
Qed.

Lemma indexOf_from_app_new l x i :
  x ∉ l -> indexOf_from (l ++ [x]) x i = i + Z.of_nat (length l).
Proof.
  revert i. induction l as [|y l IH]; intros i Hout; simpl.
  - rewrite Nat.eqb_refl. lia.
  - apply not_elem_of_cons in Hout as [Hne Hout].
    destruct (Nat.eqb_spec y x) as [|_]; [congruence|].
    rewrite IH by done. lia.
Qed.

Lemma indexOf_from_range l x i :
  x ∈ l -> i <= indexOf_from l x i < i + Z.of_nat (length l).
Proof.
  revert i. induction l as [|y l IH]; intros i Hin; simpl.
  - by apply elem_of_nil in Hin.
  - destruct (Nat.eqb_spec y x) as [|Hne]; [lia|].
    apply elem_of_cons in Hin as [->|Hin]; [done|].
    specialize (IH (i + 1) Hin). lia.
Qed.

(** X20.  In a reachable world, a state that [add] registers and that was
    not listed before gets as registration index the number of states
    listed before it.  The state is new whenever it is built from a record
    or by a function, and whenever the resolved key is not '__proto__'; only
    a State instance whose key is '__proto__' can be listed a second time.
    Every state listed earlier keeps its index, and these indices lie
    between 0 and the number of listed states. *)
Theorem add_assigns_the_next_index key stateConfig autoStart w w' newState :
  reachable w ->
  well_formed stateConfig w ->
  add key stateConfig autoStart w = (w', Return (Some newState)) ->
  ((newState ∉ states w) ->
   getStateIndex newState w' = Z.of_nat (length (states w)))
  /\ (effective_key key stateConfig w <> "__proto__"%string ->
      newState ∉ states w)
  /\ ((forall r, stateConfig <> SrcInstance r) -> newState ∉ states w)
  /\ (forall r, r ∈ states w -> getStateIndex r w' = getStateIndex r w)
  /\ (forall r, r ∈ states w ->
                0 <= getStateIndex r w < Z.of_nat (length (states w))).
Proof.
  intros Hre Hwf Hadd.
  destruct (isBooted (game w)) eqn:Hb.
  2: { unfold add in Hadd. rewrite Hb in Hadd. simpl in Hadd. congruence. }
  destruct (getKey_cases key stateConfig w) as [[e Hget]|(Hget & Hfree & _)].
  { rewrite (add_rejected key stateConfig autoStart w e Hb Hget) in Hadd.
    discriminate. }
  pose proof (reachable_registry_ok w Hre) as Hok.
  pose proof (add_new_state_fresh key stateConfig w Hok Hwf Hfree) as Hfresh.
  destruct (add_booted_fields key stateConfig autoStart w Hb Hget)
    as (Hret & _ & _ & Hstates & _).
  rewrite Hadd in Hret, Hstates. simpl in Hret, Hstates.
  injection Hret as Hn. subst newState.
  unfold getStateIndex, indexOf. rewrite Hstates.
  split; [intros Hnew; by rewrite indexOf_from_app_new|].
  split; [exact Hfresh|].
  split.
  { intros Hsrc Hin. rewrite adapted_ref in Hin.
    pose proof (reg_valid w Hok _ Hin) as Hlt.
    destruct stateConfig as [i|c|f]; [by destruct (Hsrc i)|lia..]. }
  split.
  - intros r Hin. by apply indexOf_from_app_old.
  - intros r Hin. by apply indexOf_from_range.
Qed.

Lemma add_assigns_the_next_index_witness :
  reachable A_added
  /\ well_formed (SrcObject 1%nat) A_added
  /\ getStateIndex 1%nat
       (fst (add (Some "B"%string) (SrcObject 1%nat) None A_added)) = 1.
Proof.
  assert (reachable A_added) as Hre.
  { apply reach_add; [by apply reach_new | simpl; lia]. }
  assert (well_formed (SrcObject 1%nat) A_added) as Hwf by (vm_compute; lia).
  assert (add (Some "B"%string) (SrcObject 1%nat) None A_added
          = (fst (add (Some "B"%string) (SrcObject 1%nat) None A_added),
             Return (Some 1%nat))) as Hadd by (vm_compute; reflexivity).
  split; [exact Hre|]. split; [exact Hwf|].
  assert (1%nat ∉ states A_added) as Hnew.
  { intros Hin. vm_compute in Hin.
    apply list_elem_of_singleton in Hin. discriminate. }
  etransitivity;
    [exact (proj1 (add_assigns_the_next_index
                     (Some "B"%string) (SrcObject 1%nat) None A_added
                     _ 1%nat Hre Hwf Hadd) Hnew)|].
  vm_compute. reflexivity.
Defined.

(** ** pause with a State object *)

(** X21.  As long as no state is registered under the string
    "[object Object]", [pause] removes nothing, whatever it is called with:
    it returns with the world as it was, normally when
    [getActiveStateIndex] finds no record for its argument (always so for a
    string key), and with a TypeError when it finds one, that is when it is
    handed a State object that has a record with a non-negative index. *)
Theorem pause_removes_nothing key w :
  getState "[object Object]" w = Undefined ->
  pause key w
  = (w, if getActiveStateIndex key w >? -1 then Throw TypeError else Return tt).
Proof.
  intros Hnone. destruct key as [k|r|n].
  - by rewrite pause_key, getActiveStateIndex_key.
  - unfold pause. simpl. rewrite Hnone. by case_match.
  - unfold pause. simpl. rewrite Hnone. by case_match.
Qed.

Lemma pause_removes_nothing_witness :
  getState "[object Object]" A_started = Undefined
  /\ pause (VState 0%nat) A_started = (A_started, Throw TypeError).
Proof.
  assert (getState "[object Object]" A_started = Undefined) as Hnone
    by (vm_compute; reflexivity).
  split; [exact Hnone|].
  rewrite (pause_removes_nothing (VState 0%nat) A_started Hnone).
  assert ((getActiveStateIndex (VState 0%nat) A_started >? -1) = true) as ->
    by (vm_compute; reflexivity).
  reflexivity.
Defined.

(** ** The hooks add installs *)

Lemma hooks_adapted key stateConfig w :
  well_formed stateConfig w ->
  hooks (obj (fst (adapted key stateConfig w)) (snd (adapted key stateConfig w)))
  = installed_hooks stateConfig w.
Proof.
  assert (stable hooks) as Hst by (repeat split).
  assert (stable loadUpdate) as Hlu by (repeat split).
  assert (forall s w0,
            (length (objs w) < length (objs (snd (alloc s w0))))%nat ->
            (length (objs w)
             < length (objs (frame_buffer_if_webgl (length (objs w))
                               (sys_init (length (objs w))
                                  (modify (length (objs w)) new_Systems
                                     (modify (length (objs w))
                                        (new_Settings key blank_Config)
                                        (modify (length (objs w)) with_game_set
                                           (snd (alloc s w0)))))))))%nat)
    as Hlen1.
  { intros s w0 H. rewrite frame_buffer_length. unfold sys_init, modify.
    simpl. rewrite !length_insert. exact H. }
  intros Hwf. destruct stateConfig as [i|c|f]; simpl in *.
  - unfold createStateFromInstance. simpl.
    rewrite (stable_frame_buffer _ Hst), (stable_sys_init _ Hst).
    by rewrite !(proj_modify hooks).
  - unfold createStateFromObject, setupCallbacks. simpl.
    rewrite obj_modify_same.
    2: { rewrite frame_buffer_length. unfold sys_init, modify. simpl.
         rewrite !length_insert, length_app. simpl. lia. }
    unfold hooks at 1. cbn [init preload create shutdown preUpdate update
                             postUpdate render loadUpdate].
    rewrite (stable_frame_buffer _ Hlu), (stable_sys_init _ Hlu).
    rewrite (proj_modify loadUpdate) by done.
    unfold obj, cfg. simpl.
    rewrite list_lookup_total_middle by done.
    rewrite list_lookup_total_insert_eq by done. done.
  - unfold createStateFromFunction. simpl.
    destruct (instance_of_State f); simpl.
    + unfold createStateFromInstance. simpl.
      rewrite (stable_frame_buffer _ Hst), (stable_sys_init _ Hst).
      rewrite !(proj_modify hooks) by done.
      unfold obj. simpl. by rewrite list_lookup_total_middle.
    + unfold setupCallbacks.
      rewrite obj_modify_same
        by (apply Hlen1; simpl; rewrite length_app; simpl; lia).
      unfold hooks at 1. cbn [init preload create shutdown preUpdate update
                               postUpdate render loadUpdate].
      rewrite !(stable_frame_buffer _ Hlu), !(stable_sys_init _ Hlu).
      rewrite !(proj_modify loadUpdate) by done.
      set (o' := obj _ (frame_buffer_if_webgl _ _)).
      assert (hooks o' = hooks (product f)) as Ho.
      { subst o'.
        rewrite (stable_frame_buffer _ Hst), (stable_sys_init _ Hst).
        rewrite !(proj_modify hooks) by done.
        unfold obj. simpl. by rewrite list_lookup_total_middle. }
      injection Ho as -> -> -> -> -> -> -> -> _.
      unfold obj. simpl. by rewrite list_lookup_total_middle.
Qed.

(** X22.  The callbacks of a state registered by a post-boot [add]: for a
    plain record, and for a bare object built by a function, each of the
    eight hooks is the one the record or object carries, or NOOP when it
    carries none, so none is left undefined; for a State instance, given
    as such or built by a function, the hooks are the instance's own and
    may be missing.  This holds on return from [add], whether or not the
    state was started. *)
Theorem add_installs_the_hooks key stateConfig autoStart w w' newState :
  isBooted (game w) = true ->
  well_formed stateConfig w ->
  add key stateConfig autoStart w = (w', Return (Some newState)) ->
  hooks (obj newState w') = installed_hooks stateConfig w.
Proof.
  intros Hb Hwf Hadd.
  destruct (getKey_cases key stateConfig w) as [[e Hget]|(Hget & _)].
  { rewrite (add_rejected key stateConfig autoStart w e Hb Hget) in Hadd.
    discriminate. }
  rewrite (add_booted key stateConfig autoStart w Hb Hget) in Hadd.
  injection Hadd as <- <-.
  assert (stable hooks) as Hst by (repeat split).
  destruct (_ || _).
  - rewrite (stable_start _ Hst) by done. autorewrite with store.
    by apply hooks_adapted.
  - autorewrite with store. by apply hooks_adapted.
Qed.

Lemma add_installs_the_hooks_witness :
  isBooted (game three_records) = true
  /\ well_formed (SrcObject 0%nat) three_records
  /\ hooks (obj 0%nat A_added)
     = (Some NOOP, Some NOOP, Some NOOP, Some NOOP, Some NOOP, Some NOOP,
        Some NOOP, Some NOOP, None).
Proof.
  assert (isBooted (game three_records) = true) as Hb by reflexivity.
  assert (well_formed (SrcObject 0%nat) three_records) as Hwf by (simpl; lia).
  assert (add (Some "A"%string) (SrcObject 0%nat) None three_records
          = (A_added, Return (Some 0%nat))) as Hadd
    by (vm_compute; reflexivity).
  split; [exact Hb|]. split; [exact Hwf|].
  etransitivity;
    [exact (add_installs_the_hooks (Some "A"%string) (SrcObject 0%nat) None
              three_records A_added 0%nat Hb Hwf Hadd)|].
  reflexivity.
Defined.

(** ** The active list in reachable worlds *)











